(** * EsportsStats: the aggregation engine and the scrape loop

    A shallow embedding of
      - [scraper/src/aggregator.py]   (class [Aggregator]),
      - [scraper/src/dbinterface.py]  ([PostgresManager], [MongoManager]),
      - [backend/esportstracker/scrapers.py] (method [Scraper.scrape]),
      - [backend/esportstracker/models/mongomodels.py] (ABC [Aggregatable]),
    followed by the properties proved about them.

    Conventions.  Python [int] is [Z]; [//] on integers is [Z.div] (both
    floor, the remainder taking the sign of the divisor); a [dict] is a
    [gmap]; a [list] is a [list]; clock readings ([time.time()], a float
    number of seconds) are rationals [Q].  A Python function that may raise
    returns a [result]; a method that mutates an object takes the object's
    old state and returns the new one. *)

From Stdlib Require Import ZArith QArith Qround Qminmax Lia Lqa.
From Equations Require Import Equations.
From stdpp Require Import gmap strings list fin_maps sorting.
Close Scope Q_scope.
Open Scope Z_scope.

(** ** Exceptions and effects *)

(** The exception classes the modelled code raises or catches: a constructor
    stands for the instances of the class and of its subclasses.
    [ConnectionError] is [requests.exceptions.ConnectionError],
    [ServerSelectionTimeoutError] is pymongo's, [DatabaseError] is
    psycopg2's; [OtherError] stands for every other class. *)
Inductive exn :=
  | KeyError
  | IndexError
  | ZeroDivisionError
  | ConnectionError
  | ServerSelectionTimeoutError
  | DatabaseError
  | OtherError (name : string).

Inductive result (A : Type) :=
  | Ok (a : A)
  | Raise (e : exn).
Arguments Ok {A} a.
Arguments Raise {A} e.

#[global] Instance result_ret : MRet result := fun A a => Ok a.
#[global] Instance result_bind : MBind result := fun A B f r =>
  match r with
  | Ok a => f a
  | Raise e => Raise e
  end.

(** A [for x in xs: body] loop whose body may raise, threading the loop's
    variables [s]. *)
Fixpoint for_each {S X : Type} (body : X -> S -> result S) (xs : list X) (s : S)
  : result S :=
  match xs with
  | [] => Ok s
  | x :: xs' => s' ← body x s; for_each body xs' s'
  end.

(** A list comprehension [[f(x) for x in xs]] whose [f] may raise. *)
Fixpoint comprehension {X Y : Type} (f : X -> result Y) (xs : list X)
  : result (list Y) :=
  match xs with
  | [] => Ok []
  | x :: xs' => y ← f x; ys ← comprehension f xs'; Ok (y :: ys)
  end.

(** Truth value of a list: [not rows]. *)
Definition py_not {X : Type} (l : list X) : bool :=
  match l with
  | [] => true
  | _ :: _ => false
  end.

(** [int(x)] of a float: truncation towards zero. *)
Definition py_int (x : Q) : Z := Z.quot (Qnum x) (Z.pos (Qden x)).

(** ** [list.sort()]

    Python's sort compares with [__lt__] only and is stable.  Insertion from
    the right with the same comparison gives that result: an element moves
    behind exactly the elements strictly smaller than it. *)
Fixpoint insert_sorted {A : Type} (lt : A -> A -> bool) (x : A) (l : list A)
  : list A :=
  match l with
  | [] => [x]
  | y :: l' => if lt y x then y :: insert_sorted lt x l' else x :: l
  end.

Definition list_sort {A : Type} (lt : A -> A -> bool) (l : list A) : list A :=
  foldr (insert_sorted lt) [] l.

(** Comparing by an integer key, and lists in ascending key order. *)
Definition by_key {A : Type} (key : A -> Z) (a b : A) : bool := key a <? key b.

Definition ascending {A : Type} (key : A -> Z) (l : list A) : Prop :=
  StronglySorted (fun a b => key a <= key b) l.

(** ** models: the [Aggregatable] interface

    [Aggregatable] (mongomodels.py) is the abstract base of every API
    response that can be averaged: a unix epoch and a dict from ids to viewer
    counts.  Its [__lt__] compares timestamps. *)
Class Aggregatable (K : Type) `{Countable K} (A : Type) := {
  timestamp : A -> Z;
  viewercounts : A -> gmap K Z;
}.
Arguments timestamp {K _ _ A _} _.
Arguments viewercounts {K _ _ A _} _.

Definition aggregatable_lt {K : Type} `{Countable K} {A : Type}
  `{!Aggregatable K A} (self other : A) : bool :=
  timestamp self <? timestamp other.

(** A concrete response: a timestamp and the counts of one poll, which is
    what [TwitchGamesAPIResponse] exposes to the averager. *)
Record APIResponse (K : Type) `{Countable K} := {
  resp_timestamp : Z;
  resp_counts : gmap K Z;
}.
Arguments resp_timestamp {K _ _} _.
Arguments resp_counts {K _ _} _.
Arguments Build_APIResponse {K _ _} _ _.

#[global] Instance APIResponse_aggregatable {K : Type} `{Countable K}
  : Aggregatable K (APIResponse K) :=
  {| timestamp := resp_timestamp; viewercounts := resp_counts |}.

(** ** mongomodels.py: two of the classes behind [Aggregatable]

    A Python [dict] whose order of insertion shows, as the list of its
    items: [d[k] = v] replaces the value of a key in place and appends a
    new key. *)
Fixpoint dict_set {V : Type} (k : string) (v : V) (d : list (string * V))
  : list (string * V) :=
  match d with
  | [] => [(k, v)]
  | (k', v') :: d' =>
      if decide (k' = k) then (k, v) :: d' else (k', v') :: dict_set k v d'
  end.

(** [{key(x): val(x) for x in xs}]: a later [x] replaces an earlier one of
    the same key. *)
Definition dict_comprehension {X : Type} (key : X -> string) (val : X -> Z)
  (xs : list X) : gmap string Z :=
  foldl (fun m x => <[key x := val x]> m) ∅ xs.

(** [YTLivestream], with its attributes as the docstring types them;
    [viewers] is stored through [int]. *)
Record YTLivestream := {
  yt_title : string;
  yt_channame : string;
  yt_chanid : string;
  yt_vidid : string;
  yt_viewers : Z;
  yt_language : string;
  yt_tags : list string;
}.

(** [YTLivestreams]: the constructor accepts integer timestamps only. *)
Record YTLivestreams := {
  yt_streams : list YTLivestream;
  yt_timestamp : Z;
}.

#[global] Instance YTLivestreams_aggregatable
  : Aggregatable string YTLivestreams :=
  {| timestamp := yt_timestamp;
     viewercounts self :=
       dict_comprehension yt_vidid yt_viewers (yt_streams self) |}.

(** One stream of the list handed to
    [TwitchStreamsAPIResponse.fromapiresponse], with the fields the method
    reads; ['game_id'] is a string of the API. *)
Record RawStream := {
  raw_viewer_count : Z;
  raw_game_id : string;
  raw_language : string;
  raw_type : string;
  raw_title : string;
  raw_id : string;
  raw_user_id : string;
}.

Record TwitchStreamSnapshot := {
  snap_viewers : Z;
  snap_game_id : Z;
  snap_language : string;
  snap_type : string;
  snap_title : string;
  snap_stream_id : string;
  snap_broadcaster_id : string;
}.

Record TwitchStreamsAPIResponse := {
  streams_timestamp : Z;
  streams : list (string * TwitchStreamSnapshot);
  streams_game : option Z;
}.

#[global] Instance TwitchStreamsAPIResponse_aggregatable
  : Aggregatable string TwitchStreamsAPIResponse :=
  {| timestamp := streams_timestamp;
     viewercounts self :=
       dict_comprehension snap_broadcaster_id snap_viewers (streams self).*2 |}.

(** A dict of snapshots in which each is filed under its broadcaster. *)
Definition keyed (d : list (string * TwitchStreamSnapshot)) : Prop :=
  Forall (fun kv => snap_broadcaster_id kv.2 = kv.1) d.

Section fromapiresponse.

(** [int(s)] of a string: the integer it spells, or a [ValueError]. *)
Variable int_of_str : string -> result Z.

(** Lines 157-170: one turn of the loop over [rawstreams]; the loop
    variables are [streams] and [gameid]. *)
Definition keep_stream (minviewers : Z) (stream : RawStream)
  (st : list (string * TwitchStreamSnapshot) * option Z)
  : result (list (string * TwitchStreamSnapshot) * option Z) :=
  let '(streams, gameid) := st in
  if decide (raw_viewer_count stream < minviewers) then Ok (streams, gameid)
  else
    gameid ← int_of_str (raw_game_id stream);
    let snapshot :=
      {| snap_viewers := raw_viewer_count stream;
         snap_game_id := gameid;
         snap_language := raw_language stream;
         snap_type := raw_type stream;
         snap_title := raw_title stream;
         snap_stream_id := raw_id stream;
         snap_broadcaster_id := raw_user_id stream |} in
    Ok (dict_set (raw_user_id stream) snapshot streams, Some gameid).

(** [TwitchStreamsAPIResponse.fromapiresponse]; [now] is what
    [time.time()] reads. *)
Definition fromapiresponse (now : Q) (rawstreams : list RawStream)
  (minviewers : Z) : result TwitchStreamsAPIResponse :=
  let timestamp := py_int now in
  st ← for_each (keep_stream minviewers) rawstreams ([], None);
  Ok {| streams_timestamp := timestamp; streams := st.1;
        streams_game := st.2 |}.
End fromapiresponse.

(** ** dbinterface.py: [MongoManager] *)

(** A stored document: its ['timestamp'] field and the rest of its fields. *)
Record Doc (P : Type) := {
  doc_timestamp : Z;
  doc_fields : P;
}.
Arguments doc_timestamp {P} _.
Arguments doc_fields {P} _.
Arguments Build_Doc {P} _ _.

(** [self.client[self.db_name]]: the collections of the database, by name.
    A collection that was never written to is empty. *)
Record MongoManager (P : Type) := {
  collections : gmap string (list (Doc P));
}.
Arguments collections {P} _.
Arguments Build_MongoManager {P} _.

Definition collection {P : Type} (self : MongoManager P) (collname : string)
  : list (Doc P) :=
  default [] (collections self !! collname).

(** [.sort('timestamp', pymongo.ASCENDING)] *)
Definition sort_ascending {P : Type} (docs : list (Doc P)) : list (Doc P) :=
  list_sort (fun a b => doc_timestamp a <? doc_timestamp b) docs.

(** [1 << 31 - 1] is parsed by Python as [1 << (31 - 1)]: subtraction binds
    tighter than the shift. *)
Definition first_entry_after {P : Type} (self : MongoManager P) (start : Z)
  (collname : string) : Z :=
  let topgames := collection self collname in
  let cursor :=
    sort_ascending (filter (fun d => start < doc_timestamp d) topgames) in
  match cursor with
  | d :: _ => doc_timestamp d
  | [] => Z.shiftl 1 (31 - 1)
  end.

Definition docsbetween {P : Type} (self : MongoManager P) (start end_ : Z)
  (collname : string) : list (Doc P) :=
  let coll := collection self collname in
  sort_ascending
    (filter (fun d => start <= doc_timestamp d /\ doc_timestamp d < end_) coll).

(** [e] is the earliest timestamp strictly after [start] among [docs]. *)
Definition earliest_after {P : Type} (docs : list (Doc P)) (start e : Z)
  : Prop :=
  (exists d, d ∈ docs /\ doc_timestamp d = e)
  /\ start < e
  /\ (forall d, d ∈ docs -> start < doc_timestamp d -> e <= doc_timestamp d).

(** ** dbinterface.py: [PostgresManager] *)

Inductive value :=
  | VInt (z : Z)
  | VText (s : string)
  | VNull.

Abbreviation Row := (list value).
Abbreviation Tables := (gmap string (list (list value))).

(** What the manager sends over [self.conn] to change the database. *)
Inductive statement :=
  | ExecuteValues (query : string) (argslist : list Row) (template : string)
      (page_size : Z)
  | Commit.

(** The state behind [self.conn]: the tables as last committed, the tables
    as the connection's open transaction sees them, and the statements sent
    so far, oldest first.  Only [committed] outlives the connection. *)
Record PostgresManager := {
  committed : Tables;
  session : Tables;
  sent : list statement;
}.

(** [self.tablenames], set once by [__init__]. *)
Definition tablenames : gset string :=
  {[ "game"; "twitch_game_vc"; "twitch_stream"; "twitch_channel";
     "channel_affiliation"; "esports_org" ]}.

(** The column named [epoch] in the schema of [create_tables]: the second
    column of [twitch_game_vc] and of [twitch_stream], absent elsewhere. *)
Definition epoch_column (table : string) : option nat :=
  if decide (table = "twitch_game_vc") then Some 1%nat
  else if decide (table = "twitch_stream") then Some 1%nat
  else None.

(** A method of the manager: it may change the state behind the connection
    and may raise; the state survives a raise. *)
Definition db (A : Type) : Type :=
  PostgresManager -> PostgresManager * result A.

#[global] Instance db_ret : MRet db := fun A a man => (man, Ok a).
#[global] Instance db_bind : MBind db := fun A B f m man =>
  match m man with
  | (man', Ok a) => f a man'
  | (man', Raise e) => (man', Raise e)
  end.

Definition lift {A : Type} (r : result A) : db A := fun man => (man, r).

Definition commit : db unit := fun man =>
  ({| committed := session man; session := session man;
      sent := sent man ++ [Commit] |}, Ok ()).

(** [SELECT COALESCE(MAX(epoch), 0) FROM table], answered from what the
    connection sees. *)
Definition max_epoch (epochs : list Z) : Z :=
  match epochs with
  | [] => 0
  | e :: es => foldr Z.max e es
  end.

Definition row_epoch (column : nat) (r : Row) : result Z :=
  match r !! column with
  | Some (VInt e) => Ok e
  | _ => Raise DatabaseError
  end.

Definition last_postgres_update (table : string) : db Z := fun man =>
  (man,
   match epoch_column table, session man !! table with
   | Some column, Some rows =>
       epochs ← comprehension (row_epoch column) rows; Ok (max_epoch epochs)
   | _, _ => Raise DatabaseError
   end).

(** [updated] is the largest of [epochs], and 0 when there are none. *)
Definition largest_or_zero (epochs : list Z) (updated : Z) : Prop :=
  (epochs = [] /\ updated = 0)
  \/ (updated ∈ epochs /\ forall epoch, epoch ∈ epochs -> epoch <= updated).

Section store_rows.
Context {Obj : Type}.

(** [x.to_row()] of the row objects of models.py. *)
Variable to_row : Obj -> Row.

(** The server executing one [extras.execute_values] call on the tables the
    transaction sees: the new tables, or a database error. *)
Variable server : string -> list Row -> string -> Z -> Tables -> result Tables.

Definition execute_values (query : string) (argslist : list Row)
  (template : string) (page_size : Z) : db unit := fun man =>
  let sent' := sent man ++ [ExecuteValues query argslist template page_size] in
  match server query argslist template page_size (session man) with
  | Ok tables =>
      ({| committed := committed man; session := tables; sent := sent' |},
       Ok ())
  | Raise e =>
      ({| committed := committed man; session := session man; sent := sent' |},
       Raise e)
  end.

(** What a list of sent statements does to the tables a transaction sees. *)
Fixpoint replay (stmts : list statement) (tables : Tables) : result Tables :=
  match stmts with
  | [] => Ok tables
  | ExecuteValues query argslist template page_size :: stmts' =>
      tables' ← server query argslist template page_size tables;
      replay stmts' tables'
  | Commit :: stmts' => replay stmts' tables
  end.

(** A method that sends no [Commit]: it leaves the committed tables as they
    are, and when it returns the transaction sees what its statements did. *)
Definition commit_free {X : Type} (m : db X) : Prop :=
  forall man, exists stmts,
    sent (m man).1 = sent man ++ stmts
    /\ (Commit ∉ stmts)
    /\ committed (m man).1 = committed man
    /\ (forall x, (m man).2 = Ok x ->
          replay stmts (session man) = Ok (session (m man).1)).

Definition insert_query (tablename : string) : string :=
  "INSERT INTO " +:+ tablename +:+ " VALUES %s ON CONFLICT DO NOTHING ".

Definition insert_template (row0 : Row) : string :=
  "(" +:+ String.concat "," (replicate (length row0) "%s") +:+ ")".

(** The statement that inserts [rows] into a table, as a list: no statement
    for no rows. *)
Definition insert_of (rows : list Obj) (tablename : string) : list statement :=
  match rows with
  | [] => []
  | row0 :: _ =>
      [ExecuteValues (insert_query tablename) (to_row <$> rows)
         (insert_template (to_row row0)) 1000]
  end.

Definition store_rows (rows : list Obj) (tablename : string) (commit_ : bool)
  : db bool :=
  if py_not rows || negb (bool_decide (tablename ∈ tablenames)) then mret false
  else
    let query := insert_query tablename in
    let rows := to_row <$> rows in
    row0 ← lift (match rows with r :: _ => Ok r | [] => Raise IndexError end);
    let template := insert_template row0 in
    _ ← execute_values query rows template 1000;
    _ ← (if commit_ then commit else mret ());
    mret true.
End store_rows.

(** ** dbinterface.py: [table_exists], [create_tables], [initdb] *)

(** The statements of [create_tables], by what they create: a table, with
    the tables its columns reference, or an index on a table. *)
Inductive ddl :=
  | CreateTable (name : string) (references : list string)
  | CreateIndex (name table : string).

(** The server executing one of them on the tables the transaction sees.  A
    table cannot be created twice, nor before a table it references, and an
    index needs its table; a new table has no rows. *)
Definition execute_ddl (stmt : ddl) (tables : Tables) : result Tables :=
  match stmt with
  | CreateTable name references =>
      if bool_decide (is_Some (tables !! name)) then Raise DatabaseError
      else if forallb (fun t => bool_decide (is_Some (tables !! t))) references
      then Ok (<[name := []]> tables)
      else Raise DatabaseError
  | CreateIndex _ table =>
      if bool_decide (is_Some (tables !! table)) then Ok tables
      else Raise DatabaseError
  end.

(** What these methods leave behind besides the state of the connection:
    the statements executed on a cursor and the log records. *)
Inductive db_event :=
  | Executed (stmt : ddl)
  | Info (msg : string)
  | Debug (msg : string)
  | Warning (msg : string).

Definition logged (A : Type) : Type :=
  PostgresManager * list db_event
  -> (PostgresManager * list db_event) * result A.

#[global] Instance logged_ret : MRet logged := fun A a st => (st, Ok a).
#[global] Instance logged_bind : MBind logged := fun A B f m st =>
  match m st with
  | (st', Ok a) => f a st'
  | (st', Raise e) => (st', Raise e)
  end.

Definition record (ev : db_event) : logged unit := fun st =>
  ((st.1, st.2 ++ [ev]), Ok ()).

(** [curs.execute(stmt)] *)
Definition cursor_execute (stmt : ddl) : logged unit := fun st =>
  match execute_ddl stmt (session st.1) with
  | Ok tables =>
      (({| committed := committed st.1; session := tables;
           sent := sent st.1 |}, st.2 ++ [Executed stmt]), Ok ())
  | Raise ex => ((st.1, st.2 ++ [Executed stmt]), Raise ex)
  end.

(** [self.conn.commit()] *)
Definition conn_commit : logged unit := fun st =>
  (((commit st.1).1, st.2), Ok ()).

(** [table_exists]: the count of [information_schema.tables] rows of that
    name is positive when the transaction sees such a table. *)
Definition table_exists (table : string) : logged bool := fun st =>
  (st,
   Ok (if bool_decide (table ∈ tablenames)
       then bool_decide (is_Some (session st.1 !! table))
       else false)).

(** Statements executed one after the other. *)
Fixpoint execute_all (stmts : list ddl) : logged unit :=
  match stmts with
  | [] => mret ()
  | stmt :: stmts' => _ ← cursor_execute stmt; execute_all stmts'
  end.

(** One [if not self.table_exists(..): ...] of [create_tables]. *)
Definition create_if_missing (table : string) (stmts : list ddl)
  : logged unit :=
  present ← table_exists table;
  if (present : bool) then (mret () : logged unit)
  else
    _ ← execute_all stmts;
    record (Info ("Created Table: " +:+ table)).

Definition create_tables : logged unit :=
  let game := CreateTable "game" [] in
  let game_index := CreateIndex "game_name_idx" "game" in
  let twitch_game_vc := CreateTable "twitch_game_vc" ["game"] in
  let twitch_channel := CreateTable "twitch_channel" [] in
  let twitch_stream := CreateTable "twitch_stream" ["twitch_channel"; "game"] in
  let esports_org := CreateTable "esports_org" [] in
  let channel_affiliation :=
    CreateTable "channel_affiliation" ["esports_org"; "twitch_channel"] in
  _ ← create_if_missing "game" [game; game_index];
  _ ← create_if_missing "twitch_game_vc" [twitch_game_vc];
  _ ← create_if_missing "twitch_channel" [twitch_channel];
  _ ← create_if_missing "twitch_stream" [twitch_stream];
  _ ← create_if_missing "esports_org" [esports_org];
  create_if_missing "channel_affiliation" [channel_affiliation].

(** [all(self.table_exists(t) for t in self.tablenames)] *)
Definition all_tables_exist : logged bool := fun st =>
  (st,
   Ok (forallb (fun t => bool_decide (is_Some (session st.1 !! t)))
         (elements tablenames))).

(** [initdb]: the [try] block, and the [except psycopg2.DatabaseError]
    around it. *)
Definition initdb_try : logged unit :=
  complete ← all_tables_exist;
  _ ← (if (complete : bool) then (mret () : logged unit)
       else
         _ ← record (Info "Initializing missing tables.");
         _ ← create_tables;
         _ ← conn_commit;
         record (Info "Postgres initialized."));
  record (Debug "Postgres ready.").

Definition initdb : logged unit := fun st =>
  match initdb_try st with
  | (st', Raise DatabaseError) =>
      ((st'.1, st'.2 ++ [Warning "Failed to initialize database: {}"]),
       Raise DatabaseError)
  | out => out
  end.

(** The tables in the order in which [create_tables] considers them, a
    table with no rows added where none of that name is seen, and the names
    of the tables a list of events created. *)
Definition table_order : list string :=
  ["game"; "twitch_game_vc"; "twitch_channel"; "twitch_stream";
   "esports_org"; "channel_affiliation"].

Definition ensure_table (table : string) (tables : Tables) : Tables :=
  match tables !! table with
  | Some _ => tables
  | None => <[table := []]> tables
  end.


(** ** dbinterface.py: [PostgresManager.game_name_to_id] *)

#[global] Instance value_eq_dec : EqDecision value.
Proof. solve_decision. Defined.

(** The two attributes of the manager that the method uses besides the
    connection: [self.esports_games], a set, as the list of its elements in
    the order the set iterates, and [self.gamename_cache]. *)
Record GameNames := {
  esports_games : list string;
  gamename_cache : gmap string value;
}.

Section game_name_to_id.

(** [str.lower] *)
Variable lower : string -> string.

(** Lines 199-203: the name as the configuration spells it, when the name
    given differs from a known game by case only. *)
Definition known_spelling (games : list string) (name : string) : string :=
  if bool_decide (name ∈ games) then name
  else match list_find (fun game => lower name = lower game) games with
       | Some (_, game) => game
       | None => name
       end.

(** [cursor.execute('SELECT game_id FROM game WHERE name = %s', (name,))]
    and [cursor.fetchone()]: the first row of [game] whose second column,
    [name], is the name given, cut down to its first column, [game_id];
    [None] when there is no such row. *)
Definition fetch_game_id (name : string) (tables : Tables)
  : result (option Row) :=
  match tables !! "game" with
  | None => Raise DatabaseError
  | Some rows =>
      Ok (take 1 ∘ snd
            <$> list_find (fun r : Row => r !! 1%nat = Some (VText name)) rows)
  end.

(** [cursor.fetchone()[0]]: subscripting [None] is a [TypeError]. *)
Definition first_column (fetched : option Row) : result value :=
  match fetched with
  | None => Raise (OtherError "TypeError")
  | Some row =>
      match row !! 0%nat with
      | Some v => Ok v
      | None => Raise IndexError
      end
  end.

Definition game_name_to_id (name : string) (self : GameNames)
  (man : PostgresManager) : GameNames * result value :=
  let name := known_spelling (esports_games self) name in
  match gamename_cache self !! name with
  | Some id => (self, Ok id)
  | None =>
      match fetch_game_id name (session man) ≫= first_column with
      | Ok id =>
          ({| esports_games := esports_games self;
              gamename_cache := <[name := id]> (gamename_cache self) |},
           Ok id)
      | Raise ex => (self, Raise ex)
      end
  end.
End game_name_to_id.

(** ** aggregator.py: [Aggregator.average_viewers] *)
Section average_viewers.
Context {K : Type} `{Countable K} {A : Type} `{!Aggregatable K A}.

(** [res[name] += x]: a [KeyError] when [name] is not a key. *)
Definition res_add (name : K) (x : Z) (res : gmap K Z) : result (gmap K Z) :=
  match res !! name with
  | Some v => Ok (<[name := v + x]> res)
  | None => Raise KeyError
  end.

(** Lines 44-46, for one item of [entry.viewercounts().items()]. *)
Definition count_item (entry : A) (last_timestamp : Z) (item : K * Z)
  (res : gmap K Z) : result (gmap K Z) :=
  let '(name, viewers) := item in
  let res := if decide (res !! name = None) then <[name := 0]> res else res in
  res_add name (viewers * (timestamp entry - last_timestamp)) res.

(** Lines 42-47: the loop variables are [last_timestamp], [entry] (which
    stays [None] when the list is empty) and [res]. *)
Definition count_entry (entry : A) (st : Z * option A * gmap K Z)
  : result (Z * option A * gmap K Z) :=
  let '(last_timestamp, _, res) := st in
  res ← for_each (count_item entry last_timestamp)
                 (map_to_list (viewercounts entry)) res;
  Ok (timestamp entry, Some entry, res).

(** Line 53, for one item of the last entry. *)
Definition count_tail (end_ last_timestamp : Z) (item : K * Z)
  (res : gmap K Z) : result (gmap K Z) :=
  let '(name, viewers) := item in
  res_add name (viewers * (end_ - last_timestamp)) res.

(** Lines 55-56: [res[name] //= (end-start)] for every key; dividing by
    zero raises, which takes at least one key. *)
Definition divide_all (res : gmap K Z) (d : Z) : result (gmap K Z) :=
  if decide (res = ∅) then Ok res
  else if decide (d = 0) then Raise ZeroDivisionError
  else Ok ((fun v => v `div` d) <$> res).

(** The method.  [entries.sort()] sorts the caller's list in place, so the
    list as the call leaves it is returned next to the method's result. *)
Definition average_viewers (entries : list A) (start end_ : Z)
  : list A * result (gmap K Z) :=
  let entries := list_sort aggregatable_lt entries in
  (entries,
   st ← for_each count_entry entries (start, None, ∅);
   let '(last_timestamp, entry, res) := st in
   match entry with
   | None => Ok res
   | Some entry =>
       res ← for_each (count_tail end_ last_timestamp)
                      (map_to_list (viewercounts entry)) res;
       divide_all res (end_ - start)
   end).
End average_viewers.

(** ** aggregator.py: the aggregation driver *)

(** [Aggregator.epoch_to_hour] *)
Definition epoch_to_hour (epoch : Q) : Z :=
  let seconds_in_hour := 3600 in
  py_int epoch `div` seconds_in_hour * seconds_in_hour.

(** The number of passes of [while curhrend < last] when [curhrend] grows by
    3600 in each, and the windows of those passes. *)
Definition iterations (curhrend last : Z) : Z :=
  Z.max 0 ((last - curhrend + 3599) `div` 3600).

Definition hour_buckets (curhrstart curhrend last : Z) : list (Z * Z) :=
  (fun i => (curhrstart + 3600 * i, curhrend + 3600 * i))
    <$> seqZ 0 (iterations curhrend last).

Section agg_twitch_games.
Context {K : Type} `{Countable K} {A : Type} `{!Aggregatable K A}.
Context {P Obj : Type}.

(** What the driver takes from models.py, each of which may raise on
    inconsistent data: the constructor [TwitchGamesAPIResponse(doc)],
    [TwitchGameVC.from_vcs] and [Game.api_responses_to_games(..).values()]. *)
Variable TwitchGamesAPIResponse : Doc P -> result A.
Variable from_vcs : gmap K Z -> Z -> result (list Obj).
Variable api_responses_to_games : list A -> result (list Obj).
Variable to_row : Obj -> Row.
Variable server : string -> list Row -> string -> Z -> Tables -> result Tables.

(** [self.twitch_db['top_games']], the collection of the snapshots. *)
Variable top_games : string.

(** [Aggregator._agg_ts]; [now] is what [time.time()] reads. *)
Definition _agg_ts (now : Q) (mongo : MongoManager P)
  (table_name collname : string) : db (Z * Z * Z) :=
  let sechr := 3600 in
  updated ← last_postgres_update table_name;
  let start := updated + sechr in
  let last := epoch_to_hour now in
  let earliest_entry := first_entry_after mongo start collname in
  let curhrstart := earliest_entry `div` sechr * sechr in
  let curhrend := curhrstart + sechr in
  mret (curhrstart, curhrend, last).

(** Lines 85-94: the body of the [while] loop, up to the two increments. *)
Definition aggregate_hour (mongo : MongoManager P) (curhrstart curhrend : Z)
  : db unit :=
  let docs := docsbetween mongo curhrstart curhrend top_games in
  apiresp ← lift (comprehension TwitchGamesAPIResponse docs);
  let '(apiresp, vcs) := average_viewers apiresp curhrstart curhrend in
  vcs ← lift vcs;
  vcs ← lift (from_vcs vcs curhrstart);
  if py_not apiresp then mret ()
  else
    games ← lift (api_responses_to_games apiresp);
    _ ← store_rows to_row server games "game" false;
    _ ← store_rows to_row server vcs "twitch_game_vc" false;
    mret ().

(** Lines 84-96: [while curhrend < last: ...; curhrstart += 3600;
    curhrend += 3600].  A raise in the body leaves the loop. *)
Equations? hour_loop (mongo : MongoManager P) (curhrstart curhrend last : Z)
  (man : PostgresManager) : PostgresManager * result unit
  by wf (Z.to_nat (last - curhrend)) lt :=
hour_loop mongo curhrstart curhrend last man with decide (curhrend < last) := {
  | right _ => (man, Ok ())
  | left _ with aggregate_hour mongo curhrstart curhrend man := {
    | (man', Raise e) => (man', Raise e)
    | (man', Ok _) =>
        hour_loop mongo (curhrstart + 3600) (curhrend + 3600) last man' } }.
Proof. lia. Qed.

(** The loop body run on a list of windows in turn, up to the first raise. *)
Fixpoint run_hours (mongo : MongoManager P) (buckets : list (Z * Z))
  : db unit :=
  match buckets with
  | [] => mret ()
  | (curhrstart, curhrend) :: buckets' =>
      _ ← aggregate_hour mongo curhrstart curhrend;
      run_hours mongo buckets'
  end.

(** The rows of an hour: the [game] rows of the hour's responses and the
    [twitch_game_vc] rows of their averages, as models.py makes them; no
    rows for an hour without snapshots. *)
Definition hour_rows (mongo : MongoManager P) (bucket : Z * Z)
  (rows : list Obj * list Obj) : Prop :=
  exists apiresp sorted avg,
    comprehension TwitchGamesAPIResponse
      (docsbetween mongo bucket.1 bucket.2 top_games) = Ok apiresp
    /\ average_viewers apiresp bucket.1 bucket.2 = (sorted, Ok avg)
    /\ ((apiresp = [] /\ rows = ([], []))
        \/ (apiresp <> []
            /\ exists games vcs,
                 api_responses_to_games sorted = Ok games
                 /\ from_vcs avg bucket.1 = Ok vcs
                 /\ rows = (games, vcs))).

(** The inserts of an hour's rows: into [game], then into
    [twitch_game_vc]. *)
Definition hour_inserts (rows : list Obj * list Obj) : list statement :=
  insert_of to_row rows.1 "game" ++ insert_of to_row rows.2 "twitch_game_vc".

(** [Aggregator.agg_twitch_games], from the managers as [from_config] and
    the [MongoManager] constructor return them. *)
Definition agg_twitch_games (now : Q) (mongo : MongoManager P) : db unit :=
  '(curhrstart, curhrend, last) ← _agg_ts now mongo "twitch_game_vc" top_games;
  _ ← hour_loop mongo curhrstart curhrend last;
  commit.
End agg_twitch_games.

(** ** aggregator.py: [Aggregator.agg_twitch_broadcasts] *)

(** [while hrend < last: body; hrstart += 3600; hrend += 3600], for any
    body. *)
Equations? while_hours (body : Z -> Z -> db unit) (hrstart hrend last : Z)
  (man : PostgresManager) : PostgresManager * result unit
  by wf (Z.to_nat (last - hrend)) lt :=
while_hours body hrstart hrend last man with decide (hrend < last) := {
  | right _ => (man, Ok ())
  | left _ with body hrstart hrend man := {
    | (man', Raise e) => (man', Raise e)
    | (man', Ok _) =>
        while_hours body (hrstart + 3600) (hrend + 3600) last man' } }.
Proof. lia. Qed.

Section agg_twitch_broadcasts.
Context {K : Type} `{Countable K} {A : Type} `{!Aggregatable K A}.
Context {P Obj : Type}.

(** What this driver takes from models.py: the constructor
    [TwitchStreamsAPIResponse(doc)], [TwitchChannel.from_api_resp(..).values()]
    and [TwitchStream.from_vcs(apiresp, vcs, hrstart, man)], which is handed
    the manager and so is a method on the connection. *)
Variable TwitchStreamsAPIResponse : Doc P -> result A.
Variable from_api_resp : list A -> result (list Obj).
Variable stream_from_vcs : list A -> gmap K Z -> Z -> db (list Obj).
Variable to_row : Obj -> Row.
Variable server : string -> list Row -> string -> Z -> Tables -> result Tables.

(** [self.twitch_db['top_streams']] *)
Variable top_streams : string.

(** Lines 118-128: the body of the loop, up to the two increments. *)
Definition aggregate_broadcast_hour (mongo : MongoManager P)
  (hrstart hrend : Z) : db unit :=
  let docs := docsbetween mongo hrstart hrend top_streams in
  apiresp ← lift (comprehension TwitchStreamsAPIResponse docs);
  if py_not apiresp then mret ()
  else
    let '(apiresp, vcs) := average_viewers apiresp hrstart hrend in
    vcs ← lift vcs;
    channels ← lift (from_api_resp apiresp);
    _ ← store_rows to_row server channels "twitch_channel" false;
    streams ← stream_from_vcs apiresp vcs hrstart;
    _ ← store_rows to_row server streams "twitch_stream" false;
    mret ().

Definition agg_twitch_broadcasts (now : Q) (mongo : MongoManager P)
  : db unit :=
  '(hrstart, hrend, last) ← _agg_ts now mongo "twitch_stream" top_streams;
  _ ← while_hours (aggregate_broadcast_hour mongo) hrstart hrend last;
  commit.

(** A body run on a list of windows in turn, up to the first raise. *)
Fixpoint run_windows (body : Z -> Z -> db unit) (windows : list (Z * Z))
  : db unit :=
  match windows with
  | [] => mret ()
  | (hrstart, hrend) :: windows' =>
      _ ← body hrstart hrend; run_windows body windows'
  end.
End agg_twitch_broadcasts.

(** ** scrapers.py: [Scraper.scrape] *)

(** What the loop does to the outside: log records and sleeps. *)
Inductive event :=
  | LogDebug (msg : string) (tot_time : Q)
  | LogWarning (msg : string)
  | Sleep (seconds : Q).

(** What one pass of the loop takes from the outside: the outcome of
    [self.run()] and the readings of [time.time()], in program order: at the
    top of the pass, after a [run] that returned, and for [time_to_sleep]. *)
Record pass := {
  start_time : Q;
  run : result unit;
  time_after_run : Q;
  time_before_sleep : Q;
}.

(** Lines 42-50: the [try] statement.  [Raise e] is an exception that no
    [except] clause caught. *)
Definition try_run (p : pass) : list event * result unit :=
  match run p with
  | Ok _ =>
      let tot_time := (time_after_run p - start_time p)%Q in
      ([LogDebug "Elapsed time: {:.2f}s" tot_time], Ok ())
  | Raise ConnectionError => ([LogWarning "Twitch API Failed"], Ok ())
  | Raise ServerSelectionTimeoutError =>
      ([LogWarning
          "Database Error: <class 'pymongo.errors.ServerSelectionTimeoutError'>"],
       Ok ())
  | Raise e => ([], Raise e)
  end.

(** Lines 41-53: one pass of [while True]. *)
Definition scrape_pass (update_interval : Q) (p : pass)
  : list event * result unit :=
  match try_run p with
  | (events, Raise e) => (events, Raise e)
  | (events, Ok _) =>
      let time_to_sleep :=
        (update_interval - (time_before_sleep p - start_time p))%Q in
      if Qlt_le_dec 0 time_to_sleep
      then (events ++ [Sleep time_to_sleep], Ok ())
      else (events, Ok ())
  end.

(** [while True] over the passes the outside supplies: the events so far,
    and the exception that ended the loop, if one did.  The loop has no
    other exit, so [None] means it is still running. *)
Fixpoint scrape (update_interval : Q) (passes : list pass)
  : list event * option exn :=
  match passes with
  | [] => ([], None)
  | p :: passes' =>
      match scrape_pass update_interval p with
      | (events, Raise e) => (events, Some e)
      | (events, Ok _) =>
          let '(events', out) := scrape update_interval passes' in
          (events ++ events', out)
      end
  end.

(** The seconds slept in a list of events. *)
Definition slept (events : list event) : Q :=
  foldr (fun ev acc => match ev with Sleep s => (s + acc)%Q | _ => acc end)
        0%Q events.

(** ** The averager as the specification words it

    The weighted sum of an entity over the sorted entries: each entry where
    the entity is present contributes its count times the time since the
    previous entry (since [start] for the first), and the last entry
    contributes its count times the time left until [end]. *)
Section average_spec.
Context {K : Type} `{Countable K} {A : Type} `{!Aggregatable K A}.

Fixpoint weighted_terms (k : K) (previous : Z) (sorted : list A) : Z :=
  match sorted with
  | [] => 0
  | e :: rest =>
      match viewercounts e !! k with
      | Some count => count * (timestamp e - previous)
      | None => 0
      end + weighted_terms k (timestamp e) rest
  end.

Definition final_term (k : K) (sorted : list A) (end_ : Z) : Z :=
  match last sorted with
  | Some e =>
      match viewercounts e !! k with
      | Some count => count * (end_ - timestamp e)
      | None => 0
      end
  | None => 0
  end.

Definition weighted_sum (k : K) (entries : list A) (start end_ : Z) : Z :=
  let sorted := list_sort aggregatable_lt entries in
  weighted_terms k start sorted + final_term k sorted end_.

(** The entity ids that appear in at least one entry. *)
Definition entities (entries : list A) : gset K :=
  ⋃ ((fun e => dom (viewercounts e)) <$> entries).

Definition spec_average (entries : list A) (start end_ : Z) : gmap K Z :=
  set_to_map
    (fun k => (k, weighted_sum k entries start end_ `div` (end_ - start)))
    (entities entries).
End average_spec.

(** ** tests/test_aggregator.py: the entries of [test_average_viewers] *)
Definition entry1 : APIResponse string :=
  Build_APIResponse 1800 (<["game1" := 400]> (<["game2" := 1]> ∅)).

Definition entry2 : APIResponse string :=
  Build_APIResponse 1900 (<["game1" := 400]> (<["game2" := 1]> ∅)).

Definition entry3 : APIResponse string :=
  Build_APIResponse 2000 (<["game3" := 200]> ∅).

(** ** A small store: three snapshots, nothing aggregated yet *)
Definition snapshot (t viewers : Z) : Doc (gmap string Z) :=
  Build_Doc t {["game1" := viewers]}.

Definition example_mongo : MongoManager (gmap string Z) :=
  Build_MongoManager
    {["top_games" := snapshot 4000 400 :: snapshot 5000 200
                     :: snapshot 9000 100 :: nil]}.

Definition empty_mongo : MongoManager (gmap string Z) :=
  Build_MongoManager ∅.

Definition example_tables : Tables :=
  <["twitch_game_vc" := []]> (<["game" := []]> ∅).

Definition example_man : PostgresManager :=
  {| committed := example_tables; session := example_tables; sent := [] |}.

(** The same store after the hours from 00:00 and from 01:00 were
    aggregated and committed. *)
Definition aggregated_tables : Tables :=
  <["twitch_game_vc" := [[VInt 29595; VInt 0; VInt 5];
                         [VInt 29595; VInt 3600; VInt 222]]]> example_tables.

Definition aggregated_man : PostgresManager :=
  {| committed := aggregated_tables; session := aggregated_tables;
     sent := [] |}.

(** Stand-ins for models.py and for the server, to run the driver on the
    small store: a response per document, a row per average, a row per game,
    and a server that stores the rows of a statement under its query. *)
Definition example_response (d : Doc (gmap string Z))
  : result (APIResponse string) :=
  Ok (Build_APIResponse (doc_timestamp d) (doc_fields d)).

Definition example_from_vcs (vcs : gmap string Z) (epoch : Z)
  : result (list Row) :=
  Ok ((fun kv => [VText kv.1; VInt epoch; VInt kv.2]) <$> map_to_list vcs).

Definition example_games (apiresp : list (APIResponse string))
  : result (list Row) :=
  Ok ((fun k => [VText k]) <$> elements (entities apiresp)).

Definition example_server (query : string) (argslist : list Row)
  (template : string) (page_size : Z) (tables : Tables) : result Tables :=
  Ok (<[query := default [] (tables !! query) ++ argslist]> tables).

(** A server that refuses the rows of [twitch_game_vc]. *)
Definition failing_server (query : string) (argslist : list Row)
  (template : string) (page_size : Z) (tables : Tables) : result Tables :=
  if decide (query = insert_query "twitch_game_vc") then Raise DatabaseError
  else example_server query argslist template page_size tables.

Definition failing_run (now : Q) : PostgresManager * result unit :=
  agg_twitch_games example_response example_from_vcs example_games id
    failing_server "top_games" now example_mongo example_man.

Definition example_run (now : Q) : PostgresManager * result unit :=
  agg_twitch_games example_response example_from_vcs example_games id
    example_server "top_games" now example_mongo example_man.

(** Passes of the scrape loop, for an interval of 60 seconds: a [run] that
    returns after 2.5 seconds, one that loses the connection, one that takes
    longer than the interval, and one that raises a [KeyError]. *)
Definition pass_ok : pass :=
  {| start_time := 100; run := Ok (); time_after_run := 205 # 2;
     time_before_sleep := 103 |}.

Definition pass_disconnected : pass :=
  {| start_time := 200; run := Raise ConnectionError; time_after_run := 0;
     time_before_sleep := 230 |}.

Definition pass_slow : pass :=
  {| start_time := 300; run := Ok (); time_after_run := 390;
     time_before_sleep := 390 |}.

Definition pass_fatal : pass :=
  {| start_time := 400; run := Raise KeyError; time_after_run := 0;
     time_before_sleep := 0 |}.

(** Two snapshots taken at the same second. *)
Definition tie_low : APIResponse string :=
  Build_APIResponse 1900 {["game3" := 100]}.

Definition tie_high : APIResponse string :=
  Build_APIResponse 1900 {["game3" := 300]}.

(** A sleep of a positive number of seconds, at most [bound]; any other
    event qualifies. *)
Definition sleep_within (bound : Q) (ev : event) : Prop :=
  match ev with
  | Sleep seconds => (0 < seconds)%Q /\ (seconds <= bound)%Q
  | _ => True
  end.

Definition sleep_positive (ev : event) : Prop :=
  match ev with
  | Sleep seconds => (0 < seconds)%Q
  | _ => True
  end.

(** Stand-ins for the broadcasts driver on the small store. *)
Definition example_stream_rows (apiresp : list (APIResponse string))
  (vcs : gmap string Z) (epoch : Z) : db (list Row) :=
  lift (example_from_vcs vcs epoch).

Definition example_broadcasts (now : Q) : PostgresManager * result unit :=
  agg_twitch_broadcasts example_response example_games example_stream_rows id
    example_server "top_games" now example_mongo
    {| committed := <["twitch_stream" := []]> ∅;
       session := <["twitch_stream" := []]> ∅; sent := [] |}.

(** A manager that knows two games, and a [game] table holding them.
    Lower-casing is modelled on the letters these names use. *)
Definition example_lower (s : string) : string :=
  if decide (s = "DOTA 2") then "dota 2"
  else if decide (s = "Dota 2") then "dota 2"
  else if decide (s = "Hearthstone") then "hearthstone"
  else s.

Definition example_names : GameNames :=
  {| esports_games := ["Dota 2"; "Hearthstone"]; gamename_cache := ∅ |}.

Definition game_tables : Tables :=
  {["game" := [[VInt 29595; VText "Dota 2"; VInt 32887];
               [VInt 138585; VText "Hearthstone"; VInt 42033]]]}.

Definition game_man : PostgresManager :=
  {| committed := game_tables; session := game_tables; sent := [] |}.

(** Three streams of the API: two of one broadcaster, and one below ten
    viewers whose game id is empty.  [example_int] reads the one game id
    that occurs. *)
Definition example_int (s : string) : result Z :=
  if decide (s = "29595") then Ok 29595 else Raise (OtherError "ValueError").

Definition raw_streams : list RawStream :=
  [ {| raw_viewer_count := 120; raw_game_id := "29595"; raw_language := "en";
       raw_type := "live"; raw_title := "group stage"; raw_id := "s1";
       raw_user_id := "u1" |};
    {| raw_viewer_count := 4; raw_game_id := ""; raw_language := "en";
       raw_type := "live"; raw_title := "testing"; raw_id := "s2";
       raw_user_id := "u2" |};
    {| raw_viewer_count := 150; raw_game_id := "29595"; raw_language := "en";
       raw_type := "live"; raw_title := "playoffs"; raw_id := "s3";
       raw_user_id := "u1" |} ].

Definition yt_stream (vidid : string) (viewers : Z) : YTLivestream :=
  {| yt_title := "finals"; yt_channame := "league"; yt_chanid := "c1";
     yt_vidid := vidid; yt_viewers := viewers; yt_language := "en";
     yt_tags := [] |}.

(** * Properties *)

(** ** [list.sort()] returns the stable ascending arrangement *)
Section list_sort_facts.
Context {A : Type} (key : A -> Z).
Local Abbreviation by_key := (by_key key).
Local Abbreviation ascending := (ascending key).

Lemma insert_sorted_perm (lt : A -> A -> bool) x l :
  insert_sorted lt x l ≡ₚ x :: l.
Proof.
  induction l as [|y l IH]; simpl; [done|].
  destruct (lt y x); [|done].
  rewrite IH. apply Permutation_swap.
Qed.

Lemma list_sort_perm (lt : A -> A -> bool) l : list_sort lt l ≡ₚ l.
Proof.
  induction l as [|x l IH]; simpl; [done|].
  rewrite insert_sorted_perm. by f_equiv.
Qed.

Lemma insert_sorted_ascending x l :
  ascending l -> ascending (insert_sorted by_key x l).
Proof.
  unfold ascending, by_key.
  induction 1 as [|y l Hl IH Hy]; simpl.
  - repeat constructor.
  - destruct (Z.ltb_spec (key y) (key x)) as [Hlt|Hge].
    + constructor; [done|].
      rewrite insert_sorted_perm. constructor; [lia|done].
    + constructor; [by constructor|].
      constructor; [done|].
      eapply Forall_impl; [exact Hy|]. simpl. intros; lia.
Qed.

Lemma list_sort_ascending l : ascending (list_sort by_key l).
Proof.
  induction l as [|x l IH]; simpl.
  - constructor.
  - by apply insert_sorted_ascending.
Qed.

(** Stability: entries with equal keys keep their relative order. *)
Lemma insert_sorted_stable t x l :
  filter (fun a => key a = t) (insert_sorted by_key x l)
  = filter (fun a => key a = t) (x :: l).
Proof.
  unfold by_key.
  induction l as [|y l IH]; simpl; [done|].
  destruct (Z.ltb_spec (key y) (key x)) as [Hlt|Hge]; [|done].
  rewrite filter_cons, IH, !filter_cons.
  repeat case_decide; try done; lia.
Qed.

Lemma list_sort_stable t l :
  filter (fun a => key a = t) (list_sort by_key l)
  = filter (fun a => key a = t) l.
Proof.
  induction l as [|x l IH]; simpl; [done|].
  rewrite insert_sorted_stable, !filter_cons, IH. done.
Qed.

(** Ascending order and the order within each key determine a list. *)
Lemma stable_ascending_unique l1 l2 :
  ascending l1 -> ascending l2 ->
  (forall t, filter (fun a => key a = t) l1 = filter (fun a => key a = t) l2) ->
  l1 = l2.
Proof.
  unfold ascending. intros Hl1. revert l2.
  induction Hl1 as [|x l1 Hl1 IH Hx]; intros l2 Hl2 Hsame.
  - destruct l2 as [|y l2]; [done|].
    specialize (Hsame (key y)). rewrite filter_nil, filter_cons in Hsame.
    by rewrite decide_True in Hsame.
  - destruct Hl2 as [|y l2 Hl2 Hy].
    { specialize (Hsame (key x)). rewrite filter_nil, filter_cons in Hsame.
      by rewrite decide_True in Hsame. }
    destruct (decide (key y = key x)) as [Heq|Hne].
    + pose proof (Hsame (key x)) as Hhead. rewrite !filter_cons in Hhead.
      rewrite decide_True in Hhead by done.
      rewrite (decide_True (P := key y = key x)) in Hhead by done.
      injection Hhead as <- Htail. f_equal. apply IH; [done|].
      intros t. destruct (decide (t = key x)) as [->|Ht]; [done|].
      specialize (Hsame t). rewrite !filter_cons in Hsame.
      by rewrite !decide_False in Hsame by done.
    + exfalso.
      pose proof (Hsame (key x)) as Hatx. rewrite !filter_cons in Hatx.
      rewrite decide_True in Hatx by done.
      rewrite (decide_False (P := key y = key x)) in Hatx by done.
      pose proof (Hsame (key y)) as Haty. rewrite !filter_cons in Haty.
      rewrite (decide_False (P := key x = key y)) in Haty by done.
      rewrite decide_True in Haty by done.
      assert (Hxin : x ∈ l2).
      { eapply (list_elem_of_filter (fun a => key a = key x)).
        rewrite <- Hatx. left. }
      assert (Hyin : y ∈ l1).
      { eapply (list_elem_of_filter (fun a => key a = key y)).
        rewrite Haty. left. }
      rewrite Forall_forall in Hx, Hy.
      specialize (Hx y Hyin). specialize (Hy x Hxin). simpl in *. lia.
Qed.

Lemma list_sort_ascending_id l : ascending l -> list_sort by_key l = l.
Proof.
  unfold ascending, by_key.
  induction 1 as [|x l Hl IH Hx]; simpl; [done|].
  rewrite IH. destruct Hx as [|y l' Hxy _]; simpl; [done|].
  destruct (Z.ltb_spec (key y) (key x)); [lia|done].
Qed.

Lemma list_sort_fixed_iff l : list_sort by_key l = l <-> ascending l.
Proof.
  split; [|apply list_sort_ascending_id].
  intros <-. apply list_sort_ascending.
Qed.
End list_sort_facts.

(** ** [average_viewers] *)
Section average_facts.
Context {K : Type} `{Countable K} {A : Type} `{!Aggregatable K A}.
Implicit Types (res : gmap K Z) (e : A) (k : K).

Lemma count_item_ok e last_timestamp name viewers res :
  count_item e last_timestamp (name, viewers) res
  = Ok (<[name := default 0 (res !! name)
                  + viewers * (timestamp e - last_timestamp)]> res).
Proof.
  unfold count_item, res_add. case_decide as Hk.
  - rewrite lookup_insert_eq, insert_insert_eq, Hk. done.
  - destruct (res !! name); done.
Qed.

Lemma count_tail_ok end_ last_timestamp name viewers res :
  is_Some (res !! name) ->
  count_tail end_ last_timestamp (name, viewers) res
  = Ok (<[name := default 0 (res !! name)
                  + viewers * (end_ - last_timestamp)]> res).
Proof. intros [v Hv]. unfold count_tail, res_add. by rewrite Hv. Qed.

(** A loop over the items of a dict that adds [viewers * d] under each
    name.  The order of the items does not show in the outcome: names are
    distinct.  [lenient] tells whether the body creates missing names. *)
Lemma for_each_items (lenient : Prop) body d (items : list (K * Z)) res :
  (forall name viewers r,
      lenient \/ is_Some (r !! name) ->
      body (name, viewers) r
      = Ok (<[name := default 0 (r !! name) + viewers * d]> r)) ->
  NoDup items.*1 ->
  lenient \/ (forall k, k ∈ items.*1 -> is_Some (res !! k)) ->
  exists res',
    for_each body items res = Ok res'
    /\ forall k, res' !! k =
         match (list_to_map items : gmap K Z) !! k with
         | Some v => Some (default 0 (res !! k) + v * d)
         | None => res !! k
         end.
Proof.
  intros Hbody. revert res.
  induction items as [|[name viewers] items IH]; intros res Hnd Hdom.
  - exists res. split; [done|]. intros k. simpl. by rewrite lookup_empty.
  - apply NoDup_cons in Hnd as [Hfresh Hnd]. simpl in Hfresh.
    cbn [for_each]. rewrite Hbody; last first.
    { destruct Hdom as [?|Hdom]; [by left|right].
      apply Hdom. simpl. left. }
    cbn [mbind result_bind].
    destruct (IH (<[name := default 0 (res !! name) + viewers * d]> res) Hnd)
      as (res' & Hrun & Hlook).
    { destruct Hdom as [?|Hdom]; [by left|right].
      intros k Hk. destruct (decide (name = k)) as [->|Hne].
      - rewrite lookup_insert_eq. eauto.
      - rewrite lookup_insert_ne by done. apply Hdom. simpl. by right. }
    exists res'. split; [done|]. intros k. rewrite Hlook. simpl.
    destruct (decide (name = k)) as [->|Hne].
    + rewrite (not_elem_of_list_to_map_1 _ _ Hfresh).
      by rewrite !lookup_insert_eq.
    + by rewrite !lookup_insert_ne by done.
Qed.

Lemma elem_of_entities k (entries : list A) :
  k ∈ entities entries <-> exists e, e ∈ entries /\ is_Some (viewercounts e !! k).
Proof.
  unfold entities. rewrite elem_of_union_list. split.
  - intros (X & HX & Hk). apply list_elem_of_fmap in HX as (e & -> & He).
    exists e. split; [done|]. by apply elem_of_dom.
  - intros (e & He & Hk). exists (dom (viewercounts e)). split.
    + apply list_elem_of_fmap. eauto.
    + by apply elem_of_dom.
Qed.

Lemma entities_cons e (entries : list A) :
  entities (e :: entries) = dom (viewercounts e) ∪ entities entries.
Proof. done. Qed.

Lemma entities_perm k (l1 l2 : list A) :
  l1 ≡ₚ l2 -> k ∈ entities l1 <-> k ∈ entities l2.
Proof.
  intros Hp. rewrite !elem_of_entities.
  split; intros (e & He & Hk); exists e; split; try done.
  - by rewrite <- Hp.
  - by rewrite Hp.
Qed.

Lemma weighted_terms_absent k previous (sorted : list A) :
  k ∉ entities sorted -> weighted_terms k previous sorted = 0.
Proof.
  revert previous. induction sorted as [|e rest IH]; intros previous Hk.
  - done.
  - rewrite entities_cons, not_elem_of_union, not_elem_of_dom in Hk.
    destruct Hk as [Hk Hrest]. simpl. rewrite Hk, IH by done. done.
Qed.

Lemma count_entry_eq e last_timestamp entry res :
  count_entry e (last_timestamp, entry, res)
  = (res' ← for_each (count_item e last_timestamp)
                     (map_to_list (viewercounts e)) res;
     Ok (timestamp e, Some e, res')).
Proof. done. Qed.

(** The first loop, from any state of its variables. *)
Lemma for_each_count_entry (sorted : list A) last_timestamp entry res :
  exists res',
    for_each count_entry sorted (last_timestamp, entry, res)
    = Ok (default last_timestamp (timestamp <$> last sorted),
          match last sorted with Some e => Some e | None => entry end,
          res')
    /\ forall k, res' !! k =
         if decide (k ∈ entities sorted)
         then Some (default 0 (res !! k)
                    + weighted_terms k last_timestamp sorted)
         else res !! k.
Proof.
  revert last_timestamp entry res.
  induction sorted as [|e rest IH]; intros last_timestamp entry res.
  - exists res. split; [done|]. intros k.
    rewrite decide_False; [done|]. unfold entities. set_solver.
  - cbn [for_each].
    destruct (for_each_items True (count_item e last_timestamp)
                (timestamp e - last_timestamp)
                (map_to_list (viewercounts e)) res)
      as (res1 & Hrun1 & Hlook1).
    { intros name viewers r _. apply count_item_ok. }
    { apply NoDup_fst_map_to_list. }
    { by left. }
    rewrite count_entry_eq, Hrun1. cbn [mbind result_bind].
    destruct (IH (timestamp e) (Some e) res1) as (res' & Hrun & Hlook).
    exists res'. split.
    { rewrite Hrun, last_cons. by destruct (last rest). }
    intros k. rewrite Hlook, Hlook1, list_to_map_to_list, entities_cons.
    cbn [weighted_terms].
    destruct (viewercounts e !! k) as [v|] eqn:Hv.
    + rewrite (decide_True (P := k ∈ _ ∪ _));
        last (apply elem_of_union; left; apply elem_of_dom; eauto).
      case_decide as Hin; simpl.
      * f_equal. lia.
      * rewrite weighted_terms_absent by done. f_equal. lia.
    + case_decide as Hin.
      * rewrite decide_True by (apply elem_of_union; by right). done.
      * rewrite decide_False; [done|].
        rewrite not_elem_of_union, not_elem_of_dom. done.
Qed.

Lemma divide_all_ok res d :
  d <> 0 -> divide_all res d = Ok ((fun v => v `div` d) <$> res).
Proof.
  intros Hd. unfold divide_all. case_decide as He.
  - subst. by rewrite fmap_empty.
  - by rewrite decide_False.
Qed.

Lemma lookup_spec_average (entries : list A) start end_ k :
  spec_average entries start end_ !! k =
  if decide (k ∈ entities entries)
  then Some (weighted_sum k entries start end_ `div` (end_ - start))
  else None.
Proof.
  unfold spec_average. case_decide as Hin.
  - apply lookup_set_to_map; [by intros ????|]. eauto.
  - apply eq_None_not_Some. intros [x Hx].
    apply lookup_set_to_map in Hx as (y & Hy & Heq); [|by intros ????].
    by injection Heq as -> _.
Qed.

Lemma list_sort_nil_inv {X : Type} (lt : X -> X -> bool) (l : list X) :
  list_sort lt l = [] -> l = [].
Proof.
  intros Hs. apply Permutation_nil_r. rewrite <- Hs.
  symmetry. apply list_sort_perm.
Qed.

(** The method returns, and returns the mapping of the specification. *)
Lemma average_viewers_refines (entries : list A) start end_ :
  start < end_ ->
  (average_viewers entries start end_).2
  = Ok (spec_average entries start end_).
Proof.
  intros Hlt. unfold average_viewers. cbn [snd].
  pose proof (list_sort_perm aggregatable_lt entries) as Hperm.
  destruct (for_each_count_entry (list_sort aggregatable_lt entries)
              start None ∅) as (res & Hrun & Hlook).
  rewrite Hrun. cbn [mbind result_bind].
  destruct (last (list_sort aggregatable_lt entries)) as [e|] eqn:Hlast.
  - cbn [fmap option_fmap option_map default].
    assert (He : e ∈ list_sort aggregatable_lt entries).
    { apply last_Some in Hlast as [l' ->]. set_solver. }
    destruct (for_each_items False (count_tail end_ (timestamp e))
                (end_ - timestamp e) (map_to_list (viewercounts e)) res)
      as (res' & Hrun' & Hlook').
    { intros name viewers r [[]|Hr]. by apply count_tail_ok. }
    { apply NoDup_fst_map_to_list. }
    { right. intros k Hk. rewrite Hlook, decide_True; [eauto|].
      apply elem_of_entities. exists e. split; [done|].
      apply list_elem_of_fmap in Hk as ([k' v] & -> & Hkv).
      apply elem_of_map_to_list in Hkv. simpl. eauto. }
    unfold id. rewrite Hrun'. cbn [mbind result_bind].
    rewrite divide_all_ok by lia. f_equal. apply map_eq. intros k.
    rewrite lookup_fmap, Hlook', list_to_map_to_list, Hlook, lookup_empty.
    rewrite lookup_spec_average. unfold weighted_sum, final_term.
    rewrite Hlast.
    destruct (viewercounts e !! k) as [v|] eqn:Hv.
    + rewrite (decide_True (P := k ∈ entities (list_sort _ _))); last first.
      { apply elem_of_entities. exists e. split; [done|]. eauto. }
      rewrite decide_True; last first.
      { apply (entities_perm k _ _ Hperm), elem_of_entities.
        exists e. split; [done|]. eauto. }
      simpl. done.
    + destruct (decide (k ∈ entities (list_sort aggregatable_lt entries)))
        as [Hin|Hin].
      * rewrite decide_True by by apply (entities_perm k _ _ Hperm).
        simpl. do 2 f_equal. lia.
      * rewrite decide_False; [done|].
        intros Hin'. by apply Hin, (entities_perm k _ _ Hperm).
  - apply last_None in Hlast. apply list_sort_nil_inv in Hlast as ->.
    f_equal. apply map_eq. intros k.
    rewrite Hlook, lookup_spec_average, lookup_empty.
    by rewrite !decide_False by (unfold entities; set_solver).
Qed.
End average_facts.

(** The assertions of [test_average_viewers]. *)
Example test_average_viewers_1 :
  (average_viewers [entry1; entry2] 0 2000).2
  = Ok (<["game1" := 400]> (<["game2" := 1]> ∅)).
Proof. vm_compute. reflexivity. Qed.

Example test_average_viewers_2 :
  (average_viewers [entry1; entry2; entry3] 1500 2000).2
  = Ok (<["game1" := 320]> (<["game2" := 0]> (<["game3" := 40]> ∅))).
Proof. vm_compute. reflexivity. Qed.

Example test_average_viewers_3 :
  (average_viewers [entry1; entry2; entry3] 1800 2200).2
  = Ok (<["game1" := 100]> (<["game2" := 0]> (<["game3" := 150]> ∅))).
Proof. vm_compute. reflexivity. Qed.

Section average_claims.
Context {K : Type} `{Countable K} {A : Type} `{!Aggregatable K A}.

(** C1.  For integer timestamps and [start < end], [average_viewers] returns
    a mapping whose keys are the entity ids that appear in at least one
    entry, and which sends each of them to the floor of its weighted sum
    over [end - start].  The sum runs over [sorted], the entries in ascending
    timestamp order with entries of equal timestamp in the order of the list
    given (by [stable_ascending_unique] there is one such list): count times
    the time since the previous entry (since [start] for the first) for the
    entries where the entity is present, plus the last entry's count times
    [end] minus its timestamp.  For no entries the mapping is empty. *)
Theorem average_viewers_weighted_floor (entries : list A) (start end_ : Z) :
  start < end_ ->
  exists sorted res,
    (sorted ≡ₚ entries
     /\ ascending timestamp sorted
     /\ (forall t, filter (fun e => timestamp e = t) sorted
                   = filter (fun e => timestamp e = t) entries))
    /\ (average_viewers entries start end_).2 = Ok res
    /\ (forall k, k ∈ entities entries ->
          res !! k
          = Some ((weighted_terms k start sorted + final_term k sorted end_)
                    `div` (end_ - start)))
    /\ (forall k, k ∉ entities entries -> res !! k = None)
    /\ (entries = [] -> res = ∅).
Proof.
  intros Hlt.
  exists (list_sort aggregatable_lt entries), (spec_average entries start end_).
  split; [|split; [|split; [|split]]].
  - split; [|split].
    + apply list_sort_perm.
    + apply (list_sort_ascending timestamp).
    + intros t. apply (list_sort_stable timestamp).
  - by apply average_viewers_refines.
  - intros k Hk. by rewrite lookup_spec_average, decide_True.
  - intros k Hk. by rewrite lookup_spec_average, decide_False.
  - intros ->. apply map_eq. intros k.
    rewrite lookup_spec_average, lookup_empty.
    by rewrite decide_False by (unfold entities; set_solver).
Qed.

Lemma constant_weighted_sum (k : K) (c : Z) (sorted : list A) previous end_ :
  sorted <> [] ->
  Forall (fun e => viewercounts e = {[k := c]}) sorted ->
  weighted_terms k previous sorted + final_term k sorted end_
  = c * (end_ - previous).
Proof.
  intros Hne Hall. revert previous.
  induction Hall as [|e rest He Hrest IH]; intros previous; [done|].
  unfold final_term. rewrite last_cons. cbn [weighted_terms].
  rewrite He, lookup_singleton_eq.
  destruct rest as [|e' rest'].
  - simpl. rewrite He, lookup_singleton_eq. lia.
  - specialize (IH ltac:(done) (timestamp e)). unfold final_term in IH.
    destruct (last (e' :: rest')) as [e''|] eqn:Hlast.
    + lia.
    + by apply last_None in Hlast.
Qed.

(** C8.  When every entry of a non-empty list holds exactly one entity, the
    same in all of them, at the same count [c], and [start < end], the
    method returns exactly [c] for that entity, however many entries there
    are and wherever their timestamps fall (within [start .. end] or not). *)
Theorem average_viewers_constant (entries : list A) (start end_ : Z)
  (k : K) (c : Z) :
  entries <> [] ->
  Forall (fun e => viewercounts e = {[k := c]}) entries ->
  start < end_ ->
  (average_viewers entries start end_).2 = Ok {[k := c]}.
Proof.
  intros Hne Hall Hlt. rewrite average_viewers_refines by done.
  f_equal. apply map_eq. intros k'. rewrite lookup_spec_average.
  pose proof (list_sort_perm aggregatable_lt entries) as Hperm.
  assert (Hent : forall k'', k'' ∈ entities entries <-> k'' = k).
  { intros k''. rewrite elem_of_entities. split.
    - intros (e & He & Hk). rewrite Forall_forall in Hall.
      rewrite (Hall e He) in Hk. destruct Hk as [v Hk].
      by apply lookup_singleton_Some in Hk as [-> _].
    - intros ->. destruct entries as [|e l]; [done|]. exists e.
      split; [left|]. apply Forall_cons in Hall as [-> _].
      rewrite lookup_singleton_eq. eauto. }
  case_decide as Hin.
  - apply Hent in Hin as ->. rewrite lookup_singleton_eq. f_equal.
    unfold weighted_sum. cbv zeta.
    rewrite (constant_weighted_sum k c).
    + apply Z.div_mul. lia.
    + intros Hnil. by apply list_sort_nil_inv in Hnil.
    + by rewrite Hperm.
  - rewrite lookup_singleton_ne; [done|]. intros ->. by apply Hin, Hent.
Qed.

(** C9, as the code has it.  [average_viewers] sorts the caller's list in
    place: after the call the list holds the same entries, in ascending
    timestamp order, entries of equal timestamp in their original order.  It
    is left as it was exactly when it was in ascending order already. *)
Theorem average_viewers_sorts_in_place (entries : list A) (start end_ : Z) :
  let after := (average_viewers entries start end_).1 in
  after ≡ₚ entries
  /\ ascending timestamp after
  /\ (forall t, filter (fun e => timestamp e = t) after
                = filter (fun e => timestamp e = t) entries)
  /\ (after = entries <-> ascending timestamp entries).
Proof.
  unfold average_viewers. cbn [fst]. split; [|split; [|split]].
  - apply list_sort_perm.
  - apply (list_sort_ascending timestamp).
  - intros t. apply (list_sort_stable timestamp).
  - apply (list_sort_fixed_iff timestamp).
Qed.
End average_claims.

Lemma average_viewers_weighted_floor_witness :
  1500 < 2000
  /\ exists sorted res,
       (sorted ≡ₚ [entry3; entry1; entry2]
        /\ ascending timestamp sorted
        /\ (forall t, filter (fun e => timestamp e = t) sorted
                      = filter (fun e => timestamp e = t)
                          [entry3; entry1; entry2]))
       /\ (average_viewers [entry3; entry1; entry2] 1500 2000).2 = Ok res
       /\ (forall k, k ∈ entities [entry3; entry1; entry2] ->
             res !! k
             = Some ((weighted_terms k 1500 sorted
                      + final_term k sorted 2000) `div` (2000 - 1500)))
       /\ (forall k, k ∉ entities [entry3; entry1; entry2] -> res !! k = None)
       /\ ([entry3; entry1; entry2] = [] -> res = ∅).
Proof.
  split; [lia|].
  apply (average_viewers_weighted_floor [entry3; entry1; entry2] 1500 2000).
  lia.
Defined.

Lemma average_viewers_constant_witness :
  (average_viewers [entry3; Build_APIResponse 1900 {["game3" := 200]}]
     1800 2200).2
  = Ok {["game3" := 200]}.
Proof.
  apply (average_viewers_constant
           [entry3; Build_APIResponse 1900 {["game3" := 200]}]
           1800 2200 "game3" 200).
  - discriminate.
  - repeat constructor.
  - lia.
Defined.

(** C9, as stated, fails: a list that is not in ascending order comes back
    reordered. *)
Lemma average_viewers_reorders_caller_list :
  (average_viewers [entry2; entry1] 0 2000).1 <> [entry2; entry1].
Proof.
  intros Heq. apply (f_equal (fmap resp_timestamp)) in Heq.
  vm_compute in Heq. discriminate.
Qed.

(** ** [MongoManager] *)
Section mongo_facts.
Context {P : Type}.
Implicit Types (docs : list (Doc P)) (mongo : MongoManager P).

Lemma sort_ascending_perm docs : sort_ascending docs ≡ₚ docs.
Proof. apply list_sort_perm. Qed.

Lemma sort_ascending_head docs d rest :
  sort_ascending docs = d :: rest ->
  d ∈ docs /\ forall d', d' ∈ docs -> doc_timestamp d <= doc_timestamp d'.
Proof.
  intros Hs. pose proof (sort_ascending_perm docs) as Hperm.
  pose proof (list_sort_ascending doc_timestamp docs) as Hasc.
  change (list_sort _ docs) with (sort_ascending docs) in Hasc.
  rewrite Hs in Hasc, Hperm. split.
  - rewrite <- Hperm. left.
  - intros d' Hd'. rewrite <- Hperm in Hd'.
    apply StronglySorted_inv in Hasc as [_ Hall].
    apply elem_of_cons in Hd' as [->|Hd']; [lia|].
    rewrite Forall_forall in Hall. by apply Hall.
Qed.

Lemma first_entry_after_earliest mongo start collname e :
  earliest_after (collection mongo collname) start e ->
  first_entry_after mongo start collname = e.
Proof.
  intros ((d & Hd & Hde) & Hlt & Hmin). unfold first_entry_after. cbv zeta.
  destruct (sort_ascending _) as [|d0 rest] eqn:Hs.
  - apply list_sort_nil_inv in Hs.
    assert (Hin : d ∈ filter (fun d => start < doc_timestamp d)
                          (collection mongo collname)).
    { apply list_elem_of_filter. split; [lia|done]. }
    rewrite Hs in Hin. by apply elem_of_nil in Hin.
  - apply sort_ascending_head in Hs as [Hd0 Hle].
    apply list_elem_of_filter in Hd0 as [Hd0 Hd0in].
    specialize (Hmin d0 Hd0in Hd0).
    assert (Hdin : d ∈ filter (fun d => start < doc_timestamp d)
                           (collection mongo collname)).
    { apply list_elem_of_filter. split; [lia|done]. }
    specialize (Hle d Hdin). lia.
Qed.

Lemma first_entry_after_none mongo start collname :
  (forall d, d ∈ collection mongo collname -> doc_timestamp d <= start) ->
  first_entry_after mongo start collname = 1073741824.
Proof.
  intros Hnone. unfold first_entry_after. cbv zeta.
  destruct (sort_ascending _) as [|d0 rest] eqn:Hs; [done|].
  apply sort_ascending_head in Hs as [Hd0 _].
  apply list_elem_of_filter in Hd0 as [Hd0 Hd0in].
  specialize (Hnone d0 Hd0in). lia.
Qed.

Lemma last_postgres_update_frame table man :
  (last_postgres_update table man).1 = man.
Proof. done. Qed.


Lemma agg_ts_earliest now mongo table_name collname man updated e :
  (last_postgres_update table_name man).2 = Ok updated ->
  earliest_after (collection mongo collname) (updated + 3600) e ->
  _agg_ts now mongo table_name collname man
  = (man, Ok (e `div` 3600 * 3600, e `div` 3600 * 3600 + 3600,
              epoch_to_hour now)).
Proof.
  intros Hupd Hearliest. unfold _agg_ts, mbind, db_bind.
  destruct (last_postgres_update table_name man) as [man' r] eqn:Hl.
  pose proof (last_postgres_update_frame table_name man) as Hman.
  rewrite Hl in Hman. simpl in Hman, Hupd. subst man' r.
  cbv zeta. by rewrite (first_entry_after_earliest _ _ _ e).
Qed.

Lemma elem_of_docsbetween mongo start end_ collname d :
  d ∈ docsbetween mongo start end_ collname
  <-> d ∈ collection mongo collname /\ start <= doc_timestamp d < end_.
Proof.
  unfold docsbetween. cbv zeta.
  rewrite sort_ascending_perm, list_elem_of_filter. tauto.
Qed.

Lemma comprehension_row_epoch (column : nat) (rows : list Row)
  (epochs : list Z) :
  Forall2 (fun r epoch => r !! column = Some (VInt epoch)) rows epochs ->
  comprehension (row_epoch column) rows = Ok epochs.
Proof.
  induction 1 as [|r epoch rows epochs Hr _ IH]; [done|].
  cbn [comprehension]. unfold mbind, result_bind, row_epoch at 1.
  cbn beta in Hr. rewrite Hr. by rewrite IH.
Qed.

Lemma foldr_max_largest (e : Z) (es : list Z) :
  foldr Z.max e es ∈ e :: es
  /\ forall x, x ∈ e :: es -> x <= foldr Z.max e es.
Proof.
  induction es as [|a es [IHin IHle]]; simpl.
  - split; [left|]. intros x Hx. apply elem_of_cons in Hx as [->|Hx]; [lia|].
    by apply elem_of_nil in Hx.
  - split.
    + destruct (Z.max_spec a (foldr Z.max e es)) as [[_ ->]|[_ ->]].
      * apply elem_of_cons in IHin as [Hin|Hin].
        -- rewrite Hin. left.
        -- do 2 right. exact Hin.
      * right. left.
    + intros x Hx.
      assert (Hcases : x = a \/ x ∈ e :: es).
      { apply elem_of_cons in Hx as [->|Hx]; [right; left|].
        apply elem_of_cons in Hx as [->|Hx]; [by left|]. right. by right. }
      destruct Hcases as [->|Hin]; [lia|]. specialize (IHle x Hin). lia.
Qed.

Lemma max_epoch_largest (epochs : list Z) (updated : Z) :
  largest_or_zero epochs updated -> max_epoch epochs = updated.
Proof.
  intros [[-> ->]|[Hin Hle]]; [done|].
  destruct epochs as [|e es]; [by apply elem_of_nil in Hin|].
  cbn [max_epoch]. destruct (foldr_max_largest e es) as [Hmin Hmle].
  specialize (Hle _ Hmin). specialize (Hmle _ Hin). lia.
Qed.

(** C4.  Let [updated] be the largest value in the [epoch] column of the
    rows that the connection sees in the table (for a manager with nothing
    pending, as the drivers hold it, the committed rows), 0 when the table
    has no rows, and [e] the earliest snapshot timestamp strictly after
    [updated + 3600].  Then [last_postgres_update] returns [updated] and
    [_agg_ts] returns the window that starts at [e // 3600 * 3600], a multiple
    of 3600, and ends 3600 later. *)
Theorem agg_ts_window (now : Q) mongo (table_name collname : string)
  (man : PostgresManager) (column : nat) (rows : list Row) (epochs : list Z)
  (updated e : Z) :
  epoch_column table_name = Some column ->
  session man !! table_name = Some rows ->
  Forall2 (fun r epoch => r !! column = Some (VInt epoch)) rows epochs ->
  largest_or_zero epochs updated ->
  earliest_after (collection mongo collname) (updated + 3600) e ->
  last_postgres_update table_name man = (man, Ok updated)
  /\ _agg_ts now mongo table_name collname man
     = (man, Ok (e `div` 3600 * 3600, e `div` 3600 * 3600 + 3600,
                 epoch_to_hour now))
  /\ (e `div` 3600 * 3600) mod 3600 = 0.
Proof.
  intros Hcolumn Hrows Hepochs Hupdated Hearliest.
  assert (Hupd : last_postgres_update table_name man = (man, Ok updated)).
  { unfold last_postgres_update. rewrite Hcolumn, Hrows.
    rewrite (comprehension_row_epoch _ _ _ Hepochs). cbn.
    by rewrite (max_epoch_largest _ _ Hupdated). }
  split; [done|]. split.
  - apply (agg_ts_earliest _ _ _ _ _ updated); [by rewrite Hupd|done].
  - apply Z.mod_mul. lia.
Qed.
End mongo_facts.

Lemma agg_ts_window_witness :
  last_postgres_update "twitch_game_vc" aggregated_man
  = (aggregated_man, Ok 3600)
  /\ _agg_ts (20000 # 1) example_mongo "twitch_game_vc" "top_games"
       aggregated_man
     = (aggregated_man, Ok (7200, 10800, 18000))
  /\ 7200 mod 3600 = 0.
Proof.
  apply (agg_ts_window (20000 # 1) example_mongo "twitch_game_vc" "top_games"
           aggregated_man 1%nat
           [[VInt 29595; VInt 0; VInt 5]; [VInt 29595; VInt 3600; VInt 222]]
           [0; 3600] 3600 9000).
  - reflexivity.
  - reflexivity.
  - repeat constructor.
  - right. split; [right; left|].
    intros epoch Hepoch.
    repeat (apply elem_of_cons in Hepoch as [->|Hepoch]; [lia|]).
    by apply elem_of_nil in Hepoch.
  - assert (collection example_mongo "top_games"
            = [snapshot 4000 400; snapshot 5000 200; snapshot 9000 100])
      as Hdocs by (vm_compute; reflexivity).
    rewrite Hdocs. split; [|split].
    + exists (snapshot 9000 100). split; [|reflexivity].
      do 2 right. left.
    + lia.
    + intros d Hd.
      repeat (apply elem_of_cons in Hd as [->|Hd]; [cbn; lia|]).
      by apply elem_of_nil in Hd.
Defined.

(** C2.  When no document is later than [start], the code returns
    [1 << 31 - 1], which Python reads as [1 << 30]: 1073741824, an epoch in
    January 2004, not the maximal epoch [2^31 - 1]. *)
Theorem first_entry_after_sentinel :
  first_entry_after empty_mongo 3600 "top_games" = 1073741824
  /\ first_entry_after example_mongo 9000 "top_games" = 1073741824
  /\ 1073741824 <> 2 ^ 31 - 1
  /\ 1073741824 < 1500000000.
Proof. vm_compute. repeat split; discriminate. Qed.

(** ** The hour loop *)

(** X15.  For a clock at or past the epoch, [epoch_to_hour] is the start
    of the hour the clock is in: a multiple of 3600, not after the clock,
    and less than 3600 seconds before it. *)
Lemma epoch_to_hour_floor (now : Q) :
  (0 <= now)%Q ->
  epoch_to_hour now mod 3600 = 0
  /\ (inject_Z (epoch_to_hour now) <= now)%Q
  /\ (now < inject_Z (epoch_to_hour now + 3600))%Q.
Proof.
  intros Hnow. unfold epoch_to_hour. cbv zeta.
  assert (Hint : py_int now = Qfloor now).
  { unfold py_int, Qfloor. destruct now as [n d]. simpl.
    apply Z.quot_div_nonneg; [|lia].
    unfold Qle in Hnow. simpl in Hnow. lia. }
  rewrite Hint.
  pose proof (Qfloor_le now) as Hle. pose proof (Qlt_floor now) as Hlt.
  pose proof (Z.mul_div_le (Qfloor now) 3600 ltac:(lia)) as Hlow.
  pose proof (Z.mul_succ_div_gt (Qfloor now) 3600 ltac:(lia)) as Hup.
  split_and!.
  - apply Z.mod_mul. lia.
  - eapply Qle_trans; [|exact Hle]. rewrite <- Zle_Qle. lia.
  - eapply Qlt_le_trans; [exact Hlt|]. rewrite <- Zle_Qle. lia.
Qed.

Lemma iterations_done curhrend last :
  last <= curhrend -> iterations curhrend last = 0.
Proof.
  intros Hle. unfold iterations.
  assert ((last - curhrend + 3599) `div` 3600 <= 0); [|lia].
  apply Z.lt_succ_r, Z.div_lt_upper_bound; lia.
Qed.

Lemma iterations_step curhrend last :
  curhrend < last ->
  iterations curhrend last = Z.succ (iterations (curhrend + 3600) last).
Proof.
  intros Hlt. unfold iterations.
  replace (last - curhrend + 3599)
    with (last - (curhrend + 3600) + 3599 + 1 * 3600) by lia.
  rewrite Z.div_add by lia.
  assert (0 <= (last - (curhrend + 3600) + 3599) `div` 3600); [|lia].
  apply Z.div_pos; lia.
Qed.

Lemma hour_buckets_done curhrstart curhrend last :
  last <= curhrend -> hour_buckets curhrstart curhrend last = [].
Proof.
  intros Hle. unfold hour_buckets. by rewrite iterations_done.
Qed.

Lemma hour_buckets_step curhrstart curhrend last :
  curhrend < last ->
  hour_buckets curhrstart curhrend last
  = (curhrstart, curhrend)
    :: hour_buckets (curhrstart + 3600) (curhrend + 3600) last.
Proof.
  intros Hlt. unfold hour_buckets. rewrite (iterations_step curhrend) by done.
  assert (Hn : 0 <= iterations (curhrend + 3600) last)
    by (unfold iterations; lia).
  rewrite seqZ_cons by lia. rewrite Z.pred_succ. cbn [fmap list_fmap].
  rewrite !Z.mul_0_r, !Z.add_0_r. f_equal.
  change (Z.succ 0) with (1 + 0). rewrite <- fmap_add_seqZ, <- list_fmap_compose.
  apply list_fmap_ext. intros _ i _. simpl. f_equal; lia.
Qed.

Lemma elem_of_hour_buckets curhrstart curhrend last s e :
  (s, e) ∈ hour_buckets curhrstart curhrend last
  <-> exists i, 0 <= i /\ s = curhrstart + 3600 * i
              /\ e = curhrend + 3600 * i /\ e < last.
Proof.
  unfold hour_buckets. rewrite list_elem_of_fmap.
  assert (Hiter : forall i, 0 <= i ->
            i < iterations curhrend last <-> curhrend + 3600 * i < last).
  { intros i Hi. unfold iterations. split.
    - intros Hlt.
      assert (i + 1 <= (last - curhrend + 3599) `div` 3600) as Hle by lia.
      pose proof (Z.mul_div_le (last - curhrend + 3599) 3600 ltac:(lia)).
      nia.
    - intros Hlt.
      assert (i + 1 <= (last - curhrend + 3599) `div` 3600); [|lia].
      apply Z.div_le_lower_bound; lia. }
  split.
  - intros (i & [= -> ->] & Hi). apply elem_of_seqZ in Hi.
    exists i. repeat split; try lia. apply Hiter; lia.
  - intros (i & Hi & -> & -> & Hlt). exists i. split; [done|].
    apply elem_of_seqZ. split; [lia|]. apply Hiter in Hlt; lia.
Qed.

(** ** Methods that do not commit *)
Section commit_free_facts.
Context {Obj : Type}.
Variable to_row : Obj -> Row.
Variable server : string -> list Row -> string -> Z -> Tables -> result Tables.
Local Abbreviation replay := (replay server).
Local Abbreviation commit_free := (commit_free server).

Lemma replay_app stmts1 stmts2 tables :
  replay (stmts1 ++ stmts2) tables
  = (tables' ← replay stmts1 tables; replay stmts2 tables').
Proof.
  revert tables. induction stmts1 as [|[q a t p|] stmts1 IH]; intros tables.
  - done.
  - simpl. destruct (server q a t p tables); simpl; [apply IH|done].
  - simpl. apply IH.
Qed.

Lemma commit_free_ret {X : Type} (x : X) : commit_free (mret x).
Proof.
  intros man. exists []. simpl. rewrite app_nil_r.
  split_and!; try done. apply not_elem_of_nil.
Qed.

Lemma commit_free_lift {X : Type} (r : result X) : commit_free (lift r).
Proof.
  intros man. exists []. simpl. rewrite app_nil_r.
  split_and!; try done. apply not_elem_of_nil.
Qed.

Lemma commit_free_bind {X Y : Type} (m : db X) (f : X -> db Y) :
  commit_free m -> (forall x, commit_free (f x)) -> commit_free (m ≫= f).
Proof.
  intros Hm Hf man. destruct (Hm man) as (stmts1 & Hsent1 & Hno1 & Hc1 & Hr1).
  unfold mbind, db_bind. destruct (m man) as [man1 [x|ex]]; simpl in *.
  - destruct (Hf x man1) as (stmts2 & Hsent2 & Hno2 & Hc2 & Hr2).
    exists (stmts1 ++ stmts2). split; [|split; [|split]].
    + by rewrite Hsent2, Hsent1, app_assoc.
    + by apply not_elem_of_app.
    + by rewrite Hc2.
    + intros y Hy. rewrite replay_app, (Hr1 x eq_refl). simpl. eauto.
  - exists stmts1. by split_and!.
Qed.

Lemma commit_free_execute_values query argslist template page_size :
  commit_free (execute_values server query argslist template page_size).
Proof.
  intros man. exists [ExecuteValues query argslist template page_size].
  unfold execute_values.
  destruct (server query argslist template page_size (session man)) as [t|ex]
    eqn:Hs; simpl.
  - split_and!; try done.
    + apply not_elem_of_cons. split; [done|apply not_elem_of_nil].
    + intros _ _. by rewrite Hs.
  - split_and!; try done.
    apply not_elem_of_cons. split; [done|apply not_elem_of_nil].
Qed.

Lemma commit_free_store_rows (rows : list Obj) tablename :
  commit_free (store_rows to_row server rows tablename false).
Proof.
  unfold store_rows. destruct (_ || _); [apply commit_free_ret|].
  apply commit_free_bind; [apply commit_free_lift|]. intros row0.
  apply commit_free_bind; [apply commit_free_execute_values|]. intros _.
  apply commit_free_bind; intros; apply commit_free_ret.
Qed.

Lemma commit_free_last_postgres_update table :
  commit_free (last_postgres_update table).
Proof.
  intros man. exists []. simpl. rewrite app_nil_r.
  split_and!; try done. apply not_elem_of_nil.
Qed.

(** C10.  [store_rows(rows, tablename)] returns [False] and sends nothing to
    the database when [rows] is empty or [tablename] is not one of the known
    table names.  Otherwise it sends exactly one statement, the insert of the
    rows into that table with [ON CONFLICT DO NOTHING], commits nothing, and
    when the server accepts the statement it returns [True]. *)
Theorem store_rows_guard_then_insert (rows : list Obj) (tablename : string)
  (man : PostgresManager) :
  (rows = [] \/ tablename ∉ tablenames ->
   store_rows to_row server rows tablename false man = (man, Ok false))
  /\ (rows <> [] -> tablename ∈ tablenames ->
      let query :=
        "INSERT INTO " +:+ tablename +:+ " VALUES %s ON CONFLICT DO NOTHING " in
      let argslist := to_row <$> rows in
      let template := insert_template (default [] (head argslist)) in
      let out := store_rows to_row server rows tablename false man in
      sent out.1 = sent man ++ [ExecuteValues query argslist template 1000]
      /\ committed out.1 = committed man
      /\ match server query argslist template 1000 (session man) with
         | Ok tables => session out.1 = tables /\ out.2 = Ok true
         | Raise ex => session out.1 = session man /\ out.2 = Raise ex
         end).
Proof.
  split.
  - intros [->|Hname]; unfold store_rows; [done|].
    by rewrite (bool_decide_eq_false_2 _ Hname), orb_true_r.
  - intros Hrows Hname. cbv zeta. unfold store_rows.
    destruct rows as [|row rows']; [done|].
    rewrite (bool_decide_eq_true_2 _ Hname).
    unfold mbind, db_bind, lift, execute_values, insert_query.
    cbn -[insert_template String.append].
    destruct (server _ _ _ _ _) as [tables|ex]; done.
Qed.
End commit_free_facts.

Create HintDb commit_free.
#[local] Hint Resolve commit_free_ret commit_free_lift
  commit_free_execute_values commit_free_store_rows
  commit_free_last_postgres_update : commit_free.

Section driver_facts.
Context {K : Type} `{Countable K} {A : Type} `{!Aggregatable K A}.
Context {P Obj : Type}.
Variable TwitchGamesAPIResponse : Doc P -> result A.
Variable from_vcs : gmap K Z -> Z -> result (list Obj).
Variable api_responses_to_games : list A -> result (list Obj).
Variable to_row : Obj -> Row.
Variable server : string -> list Row -> string -> Z -> Tables -> result Tables.
Variable top_games : string.
Local Abbreviation hour_body :=
  (aggregate_hour TwitchGamesAPIResponse from_vcs api_responses_to_games
     to_row server top_games).
Local Abbreviation loop :=
  (hour_loop TwitchGamesAPIResponse from_vcs api_responses_to_games
     to_row server top_games).
Local Abbreviation run :=
  (run_hours TwitchGamesAPIResponse from_vcs api_responses_to_games
     to_row server top_games).
Local Abbreviation driver :=
  (agg_twitch_games TwitchGamesAPIResponse from_vcs api_responses_to_games
     to_row server top_games).
Local Abbreviation rows_of :=
  (hour_rows TwitchGamesAPIResponse from_vcs api_responses_to_games
     top_games).

Lemma commit_free_aggregate_hour mongo curhrstart curhrend :
  commit_free server (hour_body mongo curhrstart curhrend).
Proof.
  unfold aggregate_hour. cbv zeta.
  apply commit_free_bind; [auto with commit_free|]. intros apiresp.
  destruct (average_viewers apiresp curhrstart curhrend) as [sorted vcs].
  apply commit_free_bind; [auto with commit_free|]. intros vcs'.
  apply commit_free_bind; [auto with commit_free|]. intros rows.
  destruct (py_not sorted); [auto with commit_free|].
  apply commit_free_bind; [auto with commit_free|]. intros games.
  apply commit_free_bind; [auto with commit_free|]. intros _.
  apply commit_free_bind; [auto with commit_free|]. intros _.
  auto with commit_free.
Qed.

Lemma commit_free_run_hours mongo buckets :
  commit_free server (run mongo buckets).
Proof.
  induction buckets as [|[s e] buckets IH]; simpl.
  - auto with commit_free.
  - apply commit_free_bind; [apply commit_free_aggregate_hour|done].
Qed.

(** The loop runs its body on the windows of [hour_buckets], in order. *)
Lemma hour_loop_unroll mongo curhrstart curhrend last man :
  loop mongo curhrstart curhrend last man
  = run mongo (hour_buckets curhrstart curhrend last) man.
Proof.
  funelim (loop mongo curhrstart curhrend last man).
  - rewrite hour_buckets_done by lia. done.
  - rewrite hour_buckets_step by done. cbn [run_hours].
    unfold mbind, db_bind.
    match goal with Hb : hour_body _ _ _ _ = _ |- _ => rewrite Hb end.
    match goal with IH : loop _ _ _ _ _ = run _ _ _ |- _ => exact IH end.
  - rewrite hour_buckets_step by done. cbn [run_hours].
    unfold mbind, db_bind.
    match goal with Hb : hour_body _ _ _ _ = _ |- _ => by rewrite Hb end.
Qed.

Lemma commit_free_hour_loop mongo curhrstart curhrend last :
  commit_free server (loop mongo curhrstart curhrend last).
Proof.
  intros man. rewrite hour_loop_unroll. apply commit_free_run_hours.
Qed.

Lemma commit_free_agg_ts now (mongo : MongoManager P) table_name collname :
  commit_free server (_agg_ts now mongo table_name collname).
Proof.
  unfold _agg_ts. cbv zeta.
  apply commit_free_bind; [auto with commit_free|]. intros updated.
  auto with commit_free.
Qed.


Lemma store_rows_inserts (rows : list Obj) (tablename : string)
  (man man' : PostgresManager) (stored : bool) :
  tablename ∈ tablenames ->
  store_rows to_row server rows tablename false man = (man', Ok stored) ->
  sent man' = sent man ++ insert_of to_row rows tablename
  /\ committed man' = committed man
  /\ replay server (insert_of to_row rows tablename) (session man)
     = Ok (session man').
Proof.
  intros Hname. unfold store_rows. destruct rows as [|row0 rows'].
  - cbn. intros [= <- _]. by rewrite app_nil_r.
  - rewrite (bool_decide_eq_true_2 _ Hname).
    unfold mbind, db_bind, lift, execute_values.
    cbn -[insert_template insert_query].
    destruct (server _ _ _ _ _) as [tables|ex] eqn:Hserver; [|done].
    cbn -[insert_template insert_query]. intros [= <- _].
    by split_and!.
Qed.

Lemma not_commit_insert_of (rows : list Obj) (tablename : string) :
  Commit ∉ insert_of to_row rows tablename.
Proof.
  destruct rows; cbn -[insert_template insert_query].
  - apply not_elem_of_nil.
  - apply not_elem_of_cons. split; [done|apply not_elem_of_nil].
Qed.

Lemma not_commit_hour_inserts (rows : list (list Obj * list Obj)) :
  Commit ∉ concat (hour_inserts to_row <$> rows).
Proof.
  induction rows as [|r rows IH]; [apply not_elem_of_nil|].
  cbn [fmap list_fmap concat]. unfold hour_inserts at 1.
  rewrite !not_elem_of_app. split; [split|done]; apply not_commit_insert_of.
Qed.

(** A pass that returns has sent the inserts of the hour's rows. *)
Lemma aggregate_hour_inserts mongo curhrstart curhrend man man' :
  hour_body mongo curhrstart curhrend man = (man', Ok ()) ->
  exists rows,
    rows_of mongo (curhrstart, curhrend) rows
    /\ sent man' = sent man ++ hour_inserts to_row rows
    /\ committed man' = committed man
    /\ replay server (hour_inserts to_row rows) (session man)
       = Ok (session man').
Proof.
  unfold aggregate_hour, hour_rows. cbv zeta. unfold mbind, db_bind, lift.
  cbn [fst snd].
  destruct (comprehension TwitchGamesAPIResponse _) as [apiresp|ex] eqn:Hresp;
    [|done].
  destruct (average_viewers apiresp curhrstart curhrend) as [sorted vcs]
    eqn:Havg.
  assert (Hsorted : sorted = list_sort aggregatable_lt apiresp).
  { unfold average_viewers in Havg. by injection Havg as <- _. }
  destruct vcs as [avg|ex]; [|done].
  destruct (from_vcs avg curhrstart) as [vcs|ex] eqn:Hvcs; [|done].
  destruct (py_not sorted) eqn:Hempty.
  - intros [= <-]. exists ([], []). split_and!.
    + exists apiresp, sorted, avg. split_and!; [done..|]. left.
      split; [|done]. destruct sorted; [|done].
      by apply (list_sort_nil_inv aggregatable_lt).
    + cbn. by rewrite app_nil_r.
    + done.
    + done.
  - destruct (api_responses_to_games sorted) as [games|ex] eqn:Hgames;
      [|done].
    destruct (store_rows to_row server games "game" false man)
      as [man1 [stored1|ex]] eqn:Hstore1; [|done].
    destruct (store_rows to_row server vcs "twitch_game_vc" false man1)
      as [man2 [stored2|ex]] eqn:Hstore2; [|done].
    intros [= <-].
    apply store_rows_inserts in Hstore1 as (Hsent1 & Hc1 & Hr1);
      [|by apply (bool_decide_unpack _)].
    apply store_rows_inserts in Hstore2 as (Hsent2 & Hc2 & Hr2);
      [|by apply (bool_decide_unpack _)].
    exists (games, vcs). split_and!.
    + exists apiresp, sorted, avg. split_and!; [done..|]. right. split.
      * intros ->. by rewrite Hsorted in Hempty.
      * by exists games, vcs.
    + unfold hour_inserts. cbn [fst snd]. by rewrite Hsent2, Hsent1, app_assoc.
    + by rewrite Hc2.
    + unfold hour_inserts. cbn [fst snd]. rewrite replay_app, Hr1. exact Hr2.
Qed.

Lemma run_hours_inserts mongo buckets man man' :
  run mongo buckets man = (man', Ok ()) ->
  exists rows,
    Forall2 (rows_of mongo) buckets rows
    /\ sent man' = sent man ++ concat (hour_inserts to_row <$> rows)
    /\ committed man' = committed man
    /\ replay server (concat (hour_inserts to_row <$> rows)) (session man)
       = Ok (session man').
Proof.
  revert man. induction buckets as [|[s e] buckets IH]; intros man.
  - cbn. intros [= <-]. exists []. split_and!; [constructor| |done|done].
    cbn. by rewrite app_nil_r.
  - cbn [run_hours]. unfold mbind, db_bind.
    destruct (hour_body mongo s e man) as [man1 [[]|ex]] eqn:Hbody; [|done].
    intros Hrest.
    apply aggregate_hour_inserts in Hbody as (r & Hr & Hsent1 & Hc1 & Hr1).
    apply IH in Hrest as (rows & Hrows & Hsent2 & Hc2 & Hr2).
    exists (r :: rows). split_and!.
    + by constructor.
    + cbn [fmap list_fmap concat]. by rewrite Hsent2, Hsent1, app_assoc.
    + by rewrite Hc2.
    + cbn [fmap list_fmap concat]. rewrite replay_app, Hr1. exact Hr2.
Qed.

Lemma agg_ts_frame now (mongo : MongoManager P) table_name collname man :
  (_agg_ts now mongo table_name collname man).1 = man.
Proof.
  unfold _agg_ts, mbind, db_bind.
  destruct (last_postgres_update table_name man) as [man' r] eqn:Hl.
  pose proof (last_postgres_update_frame table_name man) as Hman.
  rewrite Hl in Hman. simpl in Hman. subst man'. by destruct r.
Qed.

(** C5.  The hour loop sends no commit and leaves the committed tables as
    they were.  A run of the driver that returns has sent, for the windows of
    the loop in their order, the insert of each window's [game] rows and the
    insert of its [twitch_game_vc] rows, none of them a commit, followed by
    exactly one commit, and the committed tables are then what these inserts
    made of the tables: all the rows of the run are persisted.  A run that
    raises has sent no commit and leaves the committed tables as they were
    before the run: none of its rows is persisted. *)
Theorem agg_twitch_games_commits_once_at_end (now : Q)
  (mongo : MongoManager P) (man : PostgresManager) :
  (forall curhrstart curhrend last,
      commit_free server (loop mongo curhrstart curhrend last))
  /\ (forall man',
        driver now mongo man = (man', Ok ()) ->
        exists curhrstart curhrend last rows,
          (_agg_ts now mongo "twitch_game_vc" top_games man).2
          = Ok (curhrstart, curhrend, last)
          /\ Forall2 (rows_of mongo)
               (hour_buckets curhrstart curhrend last) rows
          /\ sent man'
             = sent man ++ concat (hour_inserts to_row <$> rows) ++ [Commit]
          /\ (Commit ∉ concat (hour_inserts to_row <$> rows))
          /\ replay server (concat (hour_inserts to_row <$> rows))
               (session man)
             = Ok (committed man'))
  /\ (forall man' ex,
        driver now mongo man = (man', Raise ex) ->
        exists stmts,
          (Commit ∉ stmts)
          /\ sent man' = sent man ++ stmts
          /\ committed man' = committed man).
Proof.
  split; [intros; apply commit_free_hour_loop|].
  unfold agg_twitch_games, mbind, db_bind.
  pose proof (agg_ts_frame now mongo "twitch_game_vc" top_games man) as Hframe.
  destruct (_agg_ts _ _ _ _ _) as [man1 [[[s e] last]|ex0]]; simpl in Hframe;
    subst man1.
  - rewrite hour_loop_unroll.
    destruct (commit_free_run_hours mongo (hour_buckets s e last) man)
      as (stmts & Hsent & Hno & Hc & _).
    destruct (run mongo (hour_buckets s e last) man) as [man2 [[]|ex0]]
      eqn:Hrun.
    + split; [|intros man' ex; discriminate].
      intros man' [= <-].
      apply run_hours_inserts in Hrun as (rows & Hrows & Hsent2 & Hc2 & Hr2).
      cbn [commit fst snd sent committed session].
      exists s, e, last, rows. split_and!.
      * done.
      * done.
      * by rewrite Hsent2, app_assoc.
      * apply not_commit_hour_inserts.
      * done.
    + split; [intros man'; discriminate|].
      intros man' ex [= <- _]. exists stmts. by split_and!.
  - split; [intros man'; discriminate|].
    intros man' ex [= <- _]. exists []. split_and!; [apply not_elem_of_nil| |done].
    by rewrite app_nil_r.
Qed.
End driver_facts.

(** ** Runs of the driver on the small store *)

(** At 03:00:00 the two full hours that hold snapshots are aggregated. *)
Example example_run_three_hours :
  example_run (10800 # 1)
  = ({| committed :=
          <["INSERT INTO game VALUES %s ON CONFLICT DO NOTHING "
              := [[VText "game1"]]]>
          (<["INSERT INTO twitch_game_vc VALUES %s ON CONFLICT DO NOTHING "
              := [[VText "game1"; VInt 3600; VInt 222]]]> example_tables);
        session :=
          <["INSERT INTO game VALUES %s ON CONFLICT DO NOTHING "
              := [[VText "game1"]]]>
          (<["INSERT INTO twitch_game_vc VALUES %s ON CONFLICT DO NOTHING "
              := [[VText "game1"; VInt 3600; VInt 222]]]> example_tables);
        sent :=
          [ExecuteValues "INSERT INTO game VALUES %s ON CONFLICT DO NOTHING "
             [[VText "game1"]] "(%s)" 1000;
           ExecuteValues
             "INSERT INTO twitch_game_vc VALUES %s ON CONFLICT DO NOTHING "
             [[VText "game1"; VInt 3600; VInt 222]] "(%s,%s,%s)" 1000;
           Commit] |}, Ok ()).
Proof. vm_compute. reflexivity. Qed.

(** A run whose second insert is refused raises: the first insert was sent
    and is seen by the transaction, but nothing is committed. *)
Example failing_run_commits_nothing :
  failing_run (10800 # 1)
  = ({| committed := example_tables;
        session :=
          <["INSERT INTO game VALUES %s ON CONFLICT DO NOTHING "
              := [[VText "game1"]]]> example_tables;
        sent :=
          [ExecuteValues "INSERT INTO game VALUES %s ON CONFLICT DO NOTHING "
             [[VText "game1"]] "(%s)" 1000;
           ExecuteValues
             "INSERT INTO twitch_game_vc VALUES %s ON CONFLICT DO NOTHING "
             [[VText "game1"; VInt 3600; VInt 222]] "(%s,%s,%s)" 1000] |},
     Raise DatabaseError).
Proof. vm_compute. reflexivity. Qed.



Lemma agg_twitch_games_commits_once_at_end_witness :
  (exists curhrstart curhrend last rows,
      (_agg_ts (10800 # 1) example_mongo "twitch_game_vc" "top_games"
         example_man).2
      = Ok (curhrstart, curhrend, last)
      /\ Forall2 (hour_rows example_response example_from_vcs example_games
                    "top_games" example_mongo)
           (hour_buckets curhrstart curhrend last) rows
      /\ sent (example_run (10800 # 1)).1
         = sent example_man ++ concat (hour_inserts id <$> rows) ++ [Commit]
      /\ (Commit ∉ concat (hour_inserts id <$> rows))
      /\ replay example_server (concat (hour_inserts id <$> rows))
           (session example_man)
         = Ok (committed (example_run (10800 # 1)).1))
  /\ (exists stmts,
        (Commit ∉ stmts)
        /\ sent (failing_run (10800 # 1)).1 = sent example_man ++ stmts
        /\ committed (failing_run (10800 # 1)).1 = committed example_man).
Proof.
  split.
  - destruct (agg_twitch_games_commits_once_at_end example_response
                example_from_vcs example_games id example_server
                "top_games" (10800 # 1) example_mongo example_man)
      as (_ & Hreturns & _).
    apply (Hreturns (example_run (10800 # 1)).1). vm_compute. reflexivity.
  - destruct (agg_twitch_games_commits_once_at_end example_response
                example_from_vcs example_games id failing_server
                "top_games" (10800 # 1) example_mongo example_man)
      as (_ & _ & Hraises).
    apply (Hraises (failing_run (10800 # 1)).1 DatabaseError).
    vm_compute. reflexivity.
Defined.

Lemma store_rows_guard_then_insert_witness :
  store_rows id example_server [] "game" false example_man
  = (example_man, Ok false)
  /\ store_rows id example_server [[VText "game1"]] "games" false example_man
     = (example_man, Ok false)
  /\ (store_rows id example_server [[VText "game1"]] "game" false
        example_man).2
     = Ok true.
Proof.
  split_and!.
  - apply (store_rows_guard_then_insert id example_server [] "game"). by left.
  - apply (store_rows_guard_then_insert id example_server
             [[VText "game1"]] "games").
    right. apply (bool_decide_unpack _). vm_compute. exact I.
  - destruct (proj2 (store_rows_guard_then_insert id example_server
                       [[VText "game1"]] "game" example_man))
      as (_ & _ & Hout).
    + discriminate.
    + apply (bool_decide_unpack _). vm_compute. exact I.
    + simpl in Hout. apply Hout.
Defined.

(** ** The scrape loop *)

Lemma try_run_caught (p : pass) :
  (try_run p).2 = Ok ()
  <-> run p = Ok () \/ run p = Raise ConnectionError
      \/ run p = Raise ServerSelectionTimeoutError.
Proof.
  unfold try_run. split.
  - destruct (run p) as [[]|[]]; simpl; intros; try discriminate; auto.
  - intros [-> | [-> | ->]]; reflexivity.
Qed.

Lemma try_run_no_sleep (p : pass) (s : Q) : Sleep s ∉ (try_run p).1.
Proof.
  unfold try_run. destruct (run p) as [[]|[]]; simpl;
    try apply not_elem_of_nil;
    (apply not_elem_of_cons; split; [done|apply not_elem_of_nil]).
Qed.

(** C6.  When the collection action raises a connection error or a server
    selection timeout, the pass logs one warning, sleeps as after a [run]
    that returned, and the loop goes on with the next pass.  When it raises
    anything else, nothing is logged and the exception leaves the loop,
    whatever passes would have followed. *)
Theorem scrape_catches_transient_only (update_interval : Q) (p : pass)
  (passes : list pass) :
  (run p = Raise ConnectionError \/ run p = Raise ServerSelectionTimeoutError ->
   exists msg sleeps,
     scrape_pass update_interval p = (LogWarning msg :: sleeps, Ok ())
     /\ (forall ev, ev ∈ sleeps -> exists s, ev = Sleep s)
     /\ scrape update_interval (p :: passes)
        = ((LogWarning msg :: sleeps) ++ (scrape update_interval passes).1,
           (scrape update_interval passes).2))
  /\ (forall e, run p = Raise e ->
        e <> ConnectionError -> e <> ServerSelectionTimeoutError ->
        scrape_pass update_interval p = ([], Raise e)
        /\ scrape update_interval (p :: passes) = ([], Some e)).
Proof.
  split.
  - intros Hrun.
    assert (exists msg, try_run p = ([LogWarning msg], Ok ())) as [msg Htry].
    { unfold try_run. destruct Hrun as [-> | ->]; eauto. }
    cbn [scrape]. unfold scrape_pass. rewrite Htry.
    destruct (Qlt_le_dec _ _) as [Hpos|Hneg].
    + eexists msg, [Sleep _]. split; [done|]. split.
      * intros ev Hev. apply list_elem_of_singleton in Hev. eauto.
      * by destruct (scrape update_interval passes).
    + exists msg, []. split; [done|]. split.
      * intros ev Hev. by apply elem_of_nil in Hev.
      * by destruct (scrape update_interval passes).
  - intros e Hrun Hconn Htimeout.
    assert (try_run p = ([], Raise e)) as Htry.
    { unfold try_run. rewrite Hrun. by destruct e. }
    cbn [scrape]. unfold scrape_pass. by rewrite Htry.
Qed.

(** C7.  In a pass that lets the loop go on, the time slept is
    [max(0, interval - elapsed)], with [elapsed] the clock reading taken
    after the collection attempt minus the one taken at the top of the pass:
    one sleep of [interval - elapsed] when that is positive, and no sleep at
    all when [elapsed >= interval]. *)
Theorem scrape_pass_sleeps_remainder (update_interval : Q) (p : pass) :
  (scrape_pass update_interval p).2 = Ok () ->
  let elapsed := (time_before_sleep p - start_time p)%Q in
  let events := (scrape_pass update_interval p).1 in
  (slept events == Qmax 0 (update_interval - elapsed))%Q
  /\ ((update_interval <= elapsed)%Q -> forall s, Sleep s ∉ events)
  /\ ((elapsed < update_interval)%Q ->
      exists events0,
        events = events0 ++ [Sleep (update_interval - elapsed)%Q]
        /\ forall s, Sleep s ∉ events0).
Proof.
  intros Hnext elapsed events. subst elapsed events.
  unfold scrape_pass in *.
  pose proof (try_run_no_sleep p) as Hnosleep.
  destruct (try_run p) as [events0 [[]|e]]; [|done]. simpl in Hnosleep.
  assert (Hslept0 : (slept events0 == 0)%Q).
  { clear Hnext. induction events0 as [|ev events0 IH]; [done|].
    assert (Hev : forall s, Sleep s <> ev).
    { intros s <-. apply (Hnosleep s). left. }
    simpl. destruct ev; try (apply IH; intros s Hs; apply (Hnosleep s);
                             by right).
    by destruct (Hev seconds). }
  destruct (Qlt_le_dec _ _) as [Hpos|Hneg]; cbn [fst].
  - split_and!.
    + assert (forall t, (slept (events0 ++ [Sleep t]) == slept events0 + t)%Q)
        as ->.
      { intros t. clear. induction events0 as [|ev events0 IH]; simpl.
        - ring.
        - destruct ev; rewrite ?IH; ring. }
      rewrite Hslept0, Q.max_r; [ring|by apply Qlt_le_weak].
    + intros Hle. exfalso. apply (Qlt_not_le _ _ Hpos).
      apply (Qplus_le_l _ _ (time_before_sleep p - start_time p)).
      ring_simplify. by ring_simplify in Hle.
    + intros _. eauto.
  - split_and!.
    + by rewrite Hslept0, Q.max_l.
    + intros _ s. apply Hnosleep.
    + intros Hlt. exfalso. apply (Qlt_not_le _ _ Hlt).
      apply (Qplus_le_l _ _ (- (time_before_sleep p - start_time p))).
      ring_simplify. by ring_simplify in Hneg.
Qed.

Lemma scrape_catches_transient_only_witness :
  scrape (60 # 1) [pass_disconnected; pass_ok]
  = ([LogWarning "Twitch API Failed"; Sleep (60 - (230 - 200))%Q]
       ++ (scrape (60 # 1) [pass_ok]).1,
     (scrape (60 # 1) [pass_ok]).2)
  /\ scrape (60 # 1) [pass_fatal; pass_ok] = ([], Some KeyError).
Proof.
  destruct (scrape_catches_transient_only (60 # 1) pass_disconnected [pass_ok])
    as [Hcaught _].
  destruct (scrape_catches_transient_only (60 # 1) pass_fatal [pass_ok])
    as [_ Hfatal].
  split.
  - destruct (Hcaught (or_introl eq_refl)) as (msg & sleeps & Hpass & _ & Hs).
    vm_compute in Hpass. injection Hpass as <- <-. exact Hs.
  - apply (Hfatal KeyError); [reflexivity|discriminate|discriminate].
Defined.

Lemma scrape_pass_sleeps_remainder_witness :
  (slept (scrape_pass (60 # 1) pass_ok).1 == Qmax 0 (60 - (103 - 100)))%Q
  /\ (forall s, Sleep s ∉ (scrape_pass (60 # 1) pass_slow).1).
Proof.
  split.
  - apply (scrape_pass_sleeps_remainder (60 # 1) pass_ok). reflexivity.
  - apply (scrape_pass_sleeps_remainder (60 # 1) pass_slow); [reflexivity|].
    vm_compute. discriminate.
Defined.

(** * Further properties *)

(** ** [average_viewers]: errors, bounds, order of the input *)
Section average_more.
Context {K : Type} `{Countable K} {A : Type} `{!Aggregatable K A}.
Implicit Types (res : gmap K Z) (e : A) (k : K).

(** The two loops never raise: before the division, [res] holds the
    weighted sum of every entity seen. *)
Lemma average_viewers_sums (entries : list A) start end_ :
  exists sums : gmap K Z,
    (forall k, sums !! k =
       if decide (k ∈ entities entries)
       then Some (weighted_sum k entries start end_) else None)
    /\ (average_viewers entries start end_).2
       = divide_all sums (end_ - start).
Proof.
  unfold average_viewers. cbn [snd].
  pose proof (list_sort_perm aggregatable_lt entries) as Hperm.
  destruct (for_each_count_entry (list_sort aggregatable_lt entries)
              start None ∅) as (res & Hrun & Hlook).
  rewrite Hrun. cbn [mbind result_bind].
  assert (Hsame : forall k, k ∈ entities (list_sort aggregatable_lt entries)
                            <-> k ∈ entities entries).
  { intros k. apply entities_perm, Hperm. }
  destruct (last (list_sort aggregatable_lt entries)) as [e|] eqn:Hlast.
  - cbn [fmap option_fmap option_map default].
    assert (He : e ∈ list_sort aggregatable_lt entries).
    { apply last_Some in Hlast as [l' ->]. apply elem_of_app. right. left. }
    destruct (for_each_items False (count_tail end_ (timestamp e))
                (end_ - timestamp e) (map_to_list (viewercounts e)) res)
      as (res' & Hrun' & Hlook').
    { intros name viewers r [[]|Hr]. by apply count_tail_ok. }
    { apply NoDup_fst_map_to_list. }
    { right. intros k Hk. rewrite Hlook, decide_True; [eauto|].
      apply elem_of_entities. exists e. split; [done|].
      apply list_elem_of_fmap in Hk as ([k' v] & -> & Hkv).
      apply elem_of_map_to_list in Hkv. simpl. eauto. }
    unfold id. rewrite Hrun'. cbn [mbind result_bind].
    exists res'. split; [|done]. intros k.
    rewrite Hlook', list_to_map_to_list, Hlook, lookup_empty.
    unfold weighted_sum, final_term. rewrite Hlast.
    destruct (viewercounts e !! k) as [v|] eqn:Hv.
    + assert (k ∈ entities (list_sort aggregatable_lt entries)) as Hin.
      { apply elem_of_entities. exists e. split; [done|]. eauto. }
      rewrite (decide_True (P := k ∈ entities (list_sort _ _))) by done.
      rewrite decide_True by (apply Hsame, Hin). done.
    + destruct (decide (k ∈ entities (list_sort aggregatable_lt entries)))
        as [Hin|Hin].
      * rewrite decide_True by (apply Hsame, Hin). simpl. f_equal. lia.
      * rewrite decide_False; [done|]. intros Hin'. apply Hin, Hsame, Hin'.
  - apply last_None in Hlast. apply list_sort_nil_inv in Hlast as ->.
    exists ∅. split.
    + intros k. rewrite lookup_empty.
      by rewrite decide_False by (unfold entities; set_solver).
    + assert (res = ∅) as ->.
      { apply map_eq. intros k. rewrite Hlook, lookup_empty.
        by rewrite decide_False by (unfold entities; set_solver). }
      done.
Qed.

Lemma entities_empty_iff (entries : list A) (sums : gmap K Z) :
  (forall k, is_Some (sums !! k) <-> k ∈ entities entries) ->
  sums = ∅ <-> entities entries = ∅.
Proof.
  intros Hdom. split.
  - intros ->. apply set_eq. intros k. rewrite <- Hdom, lookup_empty.
    split; [by intros [? ?]|set_solver].
  - intros Hempty. apply map_eq. intros k. rewrite lookup_empty.
    apply eq_None_not_Some. rewrite Hdom, Hempty. set_solver.
Qed.

(** X1.  [average_viewers] never raises a [KeyError]: its only exception is
    [ZeroDivisionError], raised exactly when [start = end] and some entry
    holds an entity.  With [start = end] and no entity anywhere the result
    is the empty mapping; with [start <> end], also for [end < start], it is
    the mapping of floor quotients. *)
Theorem average_viewers_only_divides_by_zero (entries : list A)
  (start end_ : Z) :
  ((average_viewers entries start end_).2 = Raise ZeroDivisionError
   <-> start = end_ /\ entities entries <> ∅)
  /\ (forall ex, (average_viewers entries start end_).2 = Raise ex ->
        ex = ZeroDivisionError)
  /\ (start = end_ -> entities entries = ∅ ->
      (average_viewers entries start end_).2 = Ok ∅)
  /\ (start <> end_ ->
      (average_viewers entries start end_).2
      = Ok (spec_average entries start end_)).
Proof.
  destruct (average_viewers_sums entries start end_) as (sums & Hsums & ->).
  assert (Hdom : forall k, is_Some (sums !! k) <-> k ∈ entities entries).
  { intros k. rewrite Hsums. case_decide as Hin; split.
    - done.
    - eauto.
    - by intros [? ?].
    - done. }
  pose proof (entities_empty_iff entries sums Hdom) as Hempty.
  unfold divide_all. split_and!.
  - destruct (decide (sums = ∅)) as [Hs|Hs];
      [|destruct (decide (end_ - start = 0)) as [Hd|Hd]]; split.
    + discriminate.
    + intros [_ Hne]. exfalso. apply Hne, Hempty, Hs.
    + intros _. split; [lia|]. intros He. apply Hs, Hempty, He.
    + done.
    + discriminate.
    + intros [? _]. lia.
  - intros ex. repeat case_decide; congruence.
  - intros _ He. apply Hempty in He. rewrite He. by rewrite decide_True.
  - intros Hne. assert (end_ - start <> 0) as Hd by lia.
    fold (divide_all sums (end_ - start)). rewrite divide_all_ok by done.
    f_equal. apply map_eq. intros k.
    rewrite lookup_fmap, Hsums, lookup_spec_average. by case_decide.
Qed.
End average_more.

Lemma average_viewers_only_divides_by_zero_witness :
  (average_viewers [entry1; entry2] 1800 1800).2 = Raise ZeroDivisionError
  /\ (average_viewers ([] : list (APIResponse string)) 1800 1800).2 = Ok ∅
  /\ (average_viewers [entry1; entry2] 2000 0).2
     = Ok (spec_average [entry1; entry2] 2000 0).
Proof.
  split_and!.
  - destruct (average_viewers_only_divides_by_zero [entry1; entry2] 1800 1800)
      as (Hzero & _).
    apply Hzero. split; [reflexivity|]. intros Hempty.
    apply (f_equal (fun X => bool_decide ("game1" ∈ X))) in Hempty.
    vm_compute in Hempty. discriminate.
  - destruct (average_viewers_only_divides_by_zero
                ([] : list (APIResponse string)) 1800 1800)
      as (_ & _ & Hnone & _).
    apply Hnone; reflexivity.
  - destruct (average_viewers_only_divides_by_zero [entry1; entry2] 2000 0)
      as (_ & _ & _ & Hneg).
    apply Hneg. discriminate.
Defined.

Section average_steady.
Context {K : Type} `{Countable K} {A : Type} `{!Aggregatable K A}.
Implicit Types (res : gmap K Z) (e : A) (k : K).

Lemma final_term_cons k e e' (rest : list A) end_ :
  final_term k (e :: e' :: rest) end_ = final_term k (e' :: rest) end_.
Proof.
  unfold final_term. rewrite (last_cons e).
  destruct (last (e' :: rest)) eqn:Hlast; [done|].
  by apply last_None in Hlast.
Qed.

Lemma steady_weighted_sum k (c : Z) (sorted : list A) previous end_ :
  sorted <> [] ->
  Forall (fun e => viewercounts e !! k = Some c) sorted ->
  weighted_terms k previous sorted + final_term k sorted end_
  = c * (end_ - previous).
Proof.
  intros Hne Hall. revert previous.
  induction Hall as [|e rest He Hrest IH]; intros previous; [done|].
  destruct rest as [|e' rest'].
  - unfold final_term. simpl. rewrite He. lia.
  - rewrite final_term_cons.
    specialize (IH ltac:(done) (timestamp e)).
    cbn [weighted_terms] in IH |- *. rewrite He. lia.
Qed.

(** X2.  When all the entries of a non-empty list report the same counts
    [m], one entry in particular, the average over any window with
    [start < end] is [m] itself, for every entity and wherever the
    timestamps fall. *)
Theorem average_viewers_steady (entries : list A) (start end_ : Z)
  (m : gmap K Z) :
  entries <> [] ->
  Forall (fun e => viewercounts e = m) entries ->
  start < end_ ->
  (average_viewers entries start end_).2 = Ok m.
Proof.
  intros Hne Hall Hlt. rewrite average_viewers_refines by done.
  f_equal. apply map_eq. intros k. rewrite lookup_spec_average.
  pose proof (list_sort_perm aggregatable_lt entries) as Hperm.
  assert (Hent : k ∈ entities entries <-> is_Some (m !! k)).
  { rewrite elem_of_entities. split.
    - intros (e & He & Hk). rewrite Forall_forall in Hall.
      by rewrite (Hall e He) in Hk.
    - intros Hk. destruct entries as [|e l]; [done|]. exists e.
      split; [left|]. by apply Forall_cons in Hall as [-> _]. }
  case_decide as Hin.
  - apply Hent in Hin as [c Hc]. rewrite Hc. f_equal.
    unfold weighted_sum. cbv zeta.
    rewrite (steady_weighted_sum k c).
    + apply Z.div_mul. lia.
    + intros Hnil. by apply list_sort_nil_inv in Hnil.
    + rewrite Hperm. eapply Forall_impl; [exact Hall|].
      simpl. by intros e ->.
  - symmetry. apply eq_None_not_Some. by rewrite <- Hent.
Qed.

(** The weighted sum of counts between 0 and [M], over entries in ascending
    order inside the window, lies between 0 and [M] times the window. *)
Lemma weighted_sum_bounds k (M : Z) (sorted : list A) previous end_ :
  0 <= M ->
  ascending timestamp sorted ->
  Forall (fun e => previous <= timestamp e <= end_) sorted ->
  Forall (fun e => forall c, viewercounts e !! k = Some c -> 0 <= c <= M)
         sorted ->
  previous <= end_ ->
  0 <= weighted_terms k previous sorted + final_term k sorted end_
    <= M * (end_ - previous).
Proof.
  intros HM Hasc. revert previous.
  induction Hasc as [|e rest Hrest IH Hhead];
    intros previous Hrange Hcounts Hle.
  - unfold final_term. simpl. nia.
  - apply Forall_cons in Hrange as [He Hrange].
    apply Forall_cons in Hcounts as [Hc Hcounts].
    assert (Hrange' : Forall (fun e' => timestamp e <= timestamp e' <= end_)
                        rest).
    { rewrite Forall_forall in Hrange, Hhead |- *. intros e' He'.
      specialize (Hrange e' He'). specialize (Hhead e' He'). lia. }
    specialize (IH (timestamp e) Hrange' Hcounts ltac:(lia)).
    destruct rest as [|e' rest'].
    + unfold final_term. simpl.
      destruct (viewercounts e !! k) as [c|]; [|nia].
      specialize (Hc c eq_refl). nia.
    + rewrite final_term_cons.
      set (tail := weighted_terms k (timestamp e) (e' :: rest')) in *.
      change (weighted_terms k previous (e :: e' :: rest'))
        with (match viewercounts e !! k with
              | Some count => count * (timestamp e - previous)
              | None => 0
              end + tail).
      destruct (viewercounts e !! k) as [c|]; [|nia].
      specialize (Hc c eq_refl). nia.
Qed.

(** X3.  When every count is between 0 and [M] and every timestamp lies in
    the window, [start < end], every average returned is between 0 and
    [M]: the floor never leaves the range of the counts. *)
Theorem average_viewers_within_counts (entries : list A) (start end_ M : Z) :
  start < end_ ->
  Forall (fun e => start <= timestamp e <= end_) entries ->
  Forall (fun e => forall k c, viewercounts e !! k = Some c -> 0 <= c <= M)
         entries ->
  exists res,
    (average_viewers entries start end_).2 = Ok res
    /\ forall k v, res !! k = Some v -> 0 <= v <= M.
Proof.
  intros Hlt Hrange Hcounts. exists (spec_average entries start end_).
  split; [by apply average_viewers_refines|].
  intros k v. rewrite lookup_spec_average. case_decide as Hin; [|done].
  intros [= <-].
  pose proof (list_sort_perm aggregatable_lt entries) as Hperm.
  assert (HM : 0 <= M).
  { apply elem_of_entities in Hin as (e & He & [c Hc]).
    rewrite Forall_forall in Hcounts. specialize (Hcounts e He k c Hc). lia. }
  pose proof (weighted_sum_bounds k M (list_sort aggregatable_lt entries)
                start end_ HM) as Hb.
  unfold weighted_sum. cbv zeta.
  destruct Hb as [Hlo Hhi].
  - apply (list_sort_ascending timestamp).
  - by rewrite Hperm.
  - rewrite Hperm. eapply Forall_impl; [exact Hcounts|]. simpl. eauto.
  - lia.
  - split.
    + apply Z.div_pos; lia.
    + apply Z.div_le_upper_bound; lia.
Qed.

Lemma NoDup_fmap_inj_on {X Y : Type} (f : X -> Y) (l : list X) x y :
  NoDup (f <$> l) -> x ∈ l -> y ∈ l -> f x = f y -> x = y.
Proof.
  induction l as [|z l IH]; intros Hnd Hx Hy Hf; [by apply elem_of_nil in Hx|].
  rewrite fmap_cons in Hnd. apply NoDup_cons in Hnd as [Hz Hnd].
  apply elem_of_cons in Hx as [->|Hx]; apply elem_of_cons in Hy as [->|Hy].
  - done.
  - exfalso. apply Hz. rewrite Hf. apply list_elem_of_fmap. eauto.
  - exfalso. apply Hz. rewrite <- Hf. apply list_elem_of_fmap. eauto.
  - by apply IH.
Qed.

Lemma list_sort_perm_distinct (key : A -> Z) (l1 l2 : list A) :
  l1 ≡ₚ l2 -> NoDup (key <$> l1) ->
  list_sort (by_key key) l1 = list_sort (by_key key) l2.
Proof.
  intros Hperm Hnd.
  apply (StronglySorted_unique_strong (fun a b => key a <= key b)).
  - intros x y Hx Hy Hxy Hyx. apply (NoDup_fmap_inj_on key l1); [done| | |lia].
    + by rewrite <- (list_sort_perm (by_key key) l1).
    + by rewrite Hperm, <- (list_sort_perm (by_key key) l2).
  - apply list_sort_ascending.
  - apply list_sort_ascending.
  - by rewrite !list_sort_perm.
Qed.

(** X4.  For entries with pairwise distinct timestamps the order of the
    list given does not matter: two lists with the same entries give the
    same result and leave the caller the same sorted list. *)
Theorem average_viewers_order_irrelevant (entries1 entries2 : list A)
  (start end_ : Z) :
  entries1 ≡ₚ entries2 ->
  NoDup (timestamp <$> entries1) ->
  average_viewers entries1 start end_ = average_viewers entries2 start end_.
Proof.
  intros Hperm Hnd. unfold average_viewers.
  change (@aggregatable_lt K _ _ A _) with (by_key (@timestamp K _ _ A _)).
  by rewrite (list_sort_perm_distinct timestamp entries1 entries2).
Qed.

(** X5.  Entries of equal timestamp are not interchangeable.  Of two
    snapshots taken at the same time [t], the one that comes first in the
    list weighs the time from [start] to [t], and the other the time from
    [t] to [end]. *)
Theorem average_viewers_tie_keeps_list_order (x y : A) (start end_ : Z)
  (k : K) (a b : Z) :
  timestamp x = timestamp y ->
  viewercounts x = {[k := a]} ->
  viewercounts y = {[k := b]} ->
  start < end_ ->
  (average_viewers [x; y] start end_).2
  = Ok {[k := (a * (timestamp x - start) + b * (end_ - timestamp x))
               `div` (end_ - start)]}.
Proof.
  intros Ht Hx Hy Hlt. rewrite average_viewers_refines by done.
  f_equal. apply map_eq. intros k'. rewrite lookup_spec_average.
  assert (Hsort : list_sort aggregatable_lt [x; y] = [x; y]).
  { cbn. unfold aggregatable_lt. rewrite Ht, Z.ltb_irrefl. done. }
  assert (Hent : forall k'', k'' ∈ entities [x; y] <-> k'' = k).
  { intros k''. unfold entities. cbn. rewrite Hx, Hy, !dom_singleton_L.
    rewrite !elem_of_union, elem_of_singleton, elem_of_empty. tauto. }
  case_decide as Hin.
  - apply Hent in Hin as ->. rewrite lookup_singleton_eq. f_equal.
    unfold weighted_sum, final_term. rewrite Hsort. cbn.
    rewrite Hx, Hy, !lookup_singleton_eq, Ht. f_equal. lia.
  - rewrite lookup_singleton_ne; [done|]. intros ->. by apply Hin, Hent.
Qed.
End average_steady.

Lemma average_viewers_steady_witness :
  (average_viewers [entry1; entry2] 0 2000).2 = Ok (resp_counts entry1).
Proof.
  apply (average_viewers_steady [entry1; entry2] 0 2000 (resp_counts entry1)).
  - discriminate.
  - repeat constructor.
  - lia.
Defined.

Lemma average_viewers_within_counts_witness :
  exists res,
    (average_viewers [entry1; entry2] 0 2000).2 = Ok res
    /\ forall k v, res !! k = Some v -> 0 <= v <= 400.
Proof.
  apply (average_viewers_within_counts [entry1; entry2] 0 2000 400).
  - lia.
  - repeat (apply Forall_cons; split; [cbn; lia|]). apply Forall_nil_2.
  - repeat (apply Forall_cons; split;
            [intros k c Hc; cbn in Hc;
             apply lookup_insert_Some in Hc as [[_ <-]|[_ Hc]]; [lia|];
             apply lookup_insert_Some in Hc as [[_ <-]|[_ Hc]]; [lia|];
             by rewrite lookup_empty in Hc|]).
    apply Forall_nil_2.
Defined.

Lemma average_viewers_order_irrelevant_witness :
  average_viewers [entry3; entry1] 1500 2000
  = average_viewers [entry1; entry3] 1500 2000.
Proof.
  apply (average_viewers_order_irrelevant [entry3; entry1] [entry1; entry3]).
  - apply Permutation_swap.
  - apply (bool_decide_unpack _). vm_compute. exact I.
Defined.

Lemma average_viewers_tie_keeps_list_order_witness :
  (average_viewers [tie_low; tie_high] 1800 2200).2 = Ok {["game3" := 250]}
  /\ (average_viewers [tie_high; tie_low] 1800 2200).2
     = Ok {["game3" := 150]}.
Proof.
  split.
  - rewrite (average_viewers_tie_keeps_list_order tie_low tie_high 1800 2200
               "game3" 100 300); [reflexivity..|lia].
  - rewrite (average_viewers_tie_keeps_list_order tie_high tie_low 1800 2200
               "game3" 300 100); [reflexivity..|lia].
Defined.

(** ** [MongoManager]: what the two queries return *)
Section mongo_more.
Context {P : Type}.
Implicit Types (docs : list (Doc P)) (mongo : MongoManager P).

(** X6.  [docsbetween] returns the documents of the collection whose
    timestamp is at least [start] and less than [end], each as often as the
    collection holds it, in ascending timestamp order; none when
    [end <= start]. *)
Theorem docsbetween_closed_open mongo (start end_ : Z) (collname : string) :
  (forall d, d ∈ docsbetween mongo start end_ collname
             <-> d ∈ collection mongo collname
                 /\ start <= doc_timestamp d < end_)
  /\ docsbetween mongo start end_ collname
     ≡ₚ filter (fun d => start <= doc_timestamp d /\ doc_timestamp d < end_)
          (collection mongo collname)
  /\ ascending doc_timestamp (docsbetween mongo start end_ collname)
  /\ (end_ <= start -> docsbetween mongo start end_ collname = []).
Proof.
  unfold docsbetween. cbv zeta.
  pose proof (sort_ascending_perm
                (filter (fun d => start <= doc_timestamp d
                                  /\ doc_timestamp d < end_)
                        (collection mongo collname))) as Hperm.
  split_and!.
  - intros d. rewrite Hperm, list_elem_of_filter. tauto.
  - done.
  - apply (list_sort_ascending doc_timestamp).
  - intros Hle. clear Hperm.
    assert (filter (fun d => start <= doc_timestamp d /\ doc_timestamp d < end_)
              (collection mongo collname) = []) as ->; [|done].
    induction (collection mongo collname) as [|d l IH]; [done|].
    rewrite filter_cons, IH. case_decide; [lia|done].
Qed.

(** X7.  [first_entry_after] returns the smallest timestamp strictly after
    [start] held by the collection; when the collection holds none, and
    only then, it returns 1073741824 whatever [start] is, also when
    [start] is later than that. *)
Theorem first_entry_after_cases mongo (start : Z) (collname : string) :
  (earliest_after (collection mongo collname) start
     (first_entry_after mongo start collname))
  \/ ((forall d, d ∈ collection mongo collname -> doc_timestamp d <= start)
      /\ first_entry_after mongo start collname = 1073741824).
Proof.
  destruct (decide (Exists (fun d => start < doc_timestamp d)
                           (collection mongo collname))) as [Hex|Hnone].
  - left. unfold first_entry_after. cbv zeta.
    destruct (sort_ascending _) as [|d0 rest] eqn:Hs.
    + apply list_sort_nil_inv in Hs. apply Exists_exists in Hex as (d & Hd & Hlt).
      assert (d ∈ filter (fun d => start < doc_timestamp d)
                    (collection mongo collname)) as Hin
        by (by apply list_elem_of_filter).
      rewrite Hs in Hin. by apply elem_of_nil in Hin.
    + apply sort_ascending_head in Hs as [Hd0 Hle].
      apply list_elem_of_filter in Hd0 as [Hd0 Hd0in].
      split_and!; [eauto|done|].
      intros d Hd Hlt. apply Hle. by apply list_elem_of_filter.
  - right. assert (forall d, d ∈ collection mongo collname ->
                              doc_timestamp d <= start) as Hall.
    { intros d Hd. destruct (decide (doc_timestamp d <= start)); [done|].
      exfalso. apply Hnone, Exists_exists. exists d. split; [done|lia]. }
    split; [done|]. by apply first_entry_after_none.
Qed.

(** X8.  The window that [_agg_ts] resolves is never empty when a snapshot
    is waiting: it holds the earliest snapshot after the watermark. *)
Theorem agg_ts_window_holds_snapshot (now : Q) mongo
  (table_name collname : string) (man : PostgresManager) (updated t : Z) :
  (last_postgres_update table_name man).2 = Ok updated ->
  earliest_after (collection mongo collname) (updated + 3600) t ->
  exists curhrstart curhrend last d,
    _agg_ts now mongo table_name collname man
    = (man, Ok (curhrstart, curhrend, last))
    /\ d ∈ docsbetween mongo curhrstart curhrend collname
    /\ doc_timestamp d = t.
Proof.
  intros Hupd Hearliest.
  pose proof (agg_ts_earliest now mongo table_name collname man updated t
                Hupd Hearliest) as Hts.
  destruct Hearliest as ((d & Hd & Ht) & _ & _).
  eexists _, _, _, d. split; [exact Hts|]. split; [|done].
  apply elem_of_docsbetween. split; [done|].
  pose proof (Z.mul_div_le t 3600 ltac:(lia)).
  pose proof (Z.mul_succ_div_gt t 3600 ltac:(lia)). lia.
Qed.

(** X9.  When no snapshot is later than the watermark, [_agg_ts] does not
    report that nothing is left: it resolves the hour from 1073739600 (13:00
    on 10 January 2004), and the loop then walks every hour from there up to
    the current one. *)
Theorem agg_ts_without_new_snapshot (now : Q) mongo
  (table_name collname : string) (man : PostgresManager) (updated : Z) :
  (last_postgres_update table_name man).2 = Ok updated ->
  (forall d, d ∈ collection mongo collname ->
             doc_timestamp d <= updated + 3600) ->
  _agg_ts now mongo table_name collname man
  = (man, Ok (1073739600, 1073743200, epoch_to_hour now))
  /\ (forall i, 0 <= i -> 1073743200 + 3600 * i < epoch_to_hour now ->
        (1073739600 + 3600 * i, 1073743200 + 3600 * i)
        ∈ hour_buckets 1073739600 1073743200 (epoch_to_hour now)).
Proof.
  intros Hupd Hnone. split.
  - unfold _agg_ts, mbind, db_bind.
    destruct (last_postgres_update table_name man) as [man' r] eqn:Hl.
    pose proof (last_postgres_update_frame table_name man) as Hman.
    rewrite Hl in Hman. simpl in Hman, Hupd. subst man' r.
    cbv zeta. by rewrite first_entry_after_none.
  - intros i Hi Hlt. apply elem_of_hour_buckets. exists i. by split_and!.
Qed.
End mongo_more.

Lemma docsbetween_closed_open_witness :
  docsbetween example_mongo 7200 3600 "top_games" = [].
Proof.
  apply (docsbetween_closed_open example_mongo 7200 3600 "top_games"). lia.
Defined.

Lemma agg_ts_window_holds_snapshot_witness :
  exists curhrstart curhrend last d,
    _agg_ts (20000 # 1) example_mongo "twitch_game_vc" "top_games" example_man
    = (example_man, Ok (curhrstart, curhrend, last))
    /\ d ∈ docsbetween example_mongo curhrstart curhrend "top_games"
    /\ doc_timestamp d = 4000.
Proof.
  apply (agg_ts_window_holds_snapshot (20000 # 1) example_mongo
           "twitch_game_vc" "top_games" example_man 0 4000).
  - reflexivity.
  - assert (collection example_mongo "top_games"
            = [snapshot 4000 400; snapshot 5000 200; snapshot 9000 100])
      as Hdocs by (vm_compute; reflexivity).
    rewrite Hdocs. split; [|split].
    + exists (snapshot 4000 400). split; [left|reflexivity].
    + lia.
    + intros d Hd.
      repeat (apply elem_of_cons in Hd as [->|Hd]; [cbn; lia|]).
      by apply elem_of_nil in Hd.
Defined.

Lemma agg_ts_without_new_snapshot_witness :
  _agg_ts (1500000000 # 1) empty_mongo "twitch_game_vc" "top_games"
    example_man
  = (example_man, Ok (1073739600, 1073743200, 1499997600))
  /\ (1073739600 + 3600 * 100000, 1073743200 + 3600 * 100000)
     ∈ hour_buckets 1073739600 1073743200 (epoch_to_hour (1500000000 # 1)).
Proof.
  destruct (agg_ts_without_new_snapshot (1500000000 # 1) empty_mongo
              "twitch_game_vc" "top_games" example_man 0) as [Hts Hwalk].
  - reflexivity.
  - intros d Hd. vm_compute in Hd. by apply elem_of_nil in Hd.
  - split; [exact Hts|]. apply Hwalk; [lia|]. vm_compute. reflexivity.
Defined.

(** ** [store_rows] with [commit=True], and what one pass sends *)
Section store_rows_more.
Context {Obj : Type}.
Variable to_row : Obj -> Row.
Variable server : string -> list Row -> string -> Z -> Tables -> result Tables.

(** X10.  [store_rows(rows, tablename, commit=True)] commits only after an
    insert that the server accepted: the committed tables are then the
    tables the insert left.  Behind the guard (no rows, unknown table) it
    returns [False] without committing what the connection has pending, and
    when the server refuses the insert nothing is committed either. *)
Theorem store_rows_commit_after_insert (rows : list Obj) (tablename : string)
  (man : PostgresManager) :
  let out := store_rows to_row server rows tablename true man in
  let stmt :=
    ExecuteValues (insert_query tablename) (to_row <$> rows)
      (insert_template (default [] (head (to_row <$> rows)))) 1000 in
  (rows = [] \/ tablename ∉ tablenames -> out = (man, Ok false))
  /\ (rows <> [] -> tablename ∈ tablenames ->
      match server (insert_query tablename) (to_row <$> rows)
              (insert_template (default [] (head (to_row <$> rows)))) 1000
              (session man) with
      | Ok tables =>
          out = ({| committed := tables; session := tables;
                    sent := (sent man ++ [stmt]) ++ [Commit] |}, Ok true)
      | Raise ex =>
          out = ({| committed := committed man; session := session man;
                    sent := sent man ++ [stmt] |}, Raise ex)
      end).
Proof.
  cbv zeta. split.
  - intros [->|Hname]; unfold store_rows; [done|].
    by rewrite (bool_decide_eq_false_2 _ Hname), orb_true_r.
  - intros Hrows Hname. unfold store_rows.
    destruct rows as [|row rows']; [done|].
    rewrite (bool_decide_eq_true_2 _ Hname).
    unfold mbind, db_bind, lift, execute_values, commit.
    cbn -[insert_template insert_query].
    destruct (server _ _ _ _ _) as [tables|ex]; done.
Qed.

(** What one [store_rows] without commit adds to the statements sent:
    nothing, or one insert into the table named. *)
Lemma store_rows_sent (rows : list Obj) (tablename : string)
  (man : PostgresManager) :
  exists stmts,
    sent (store_rows to_row server rows tablename false man).1
    = sent man ++ stmts
    /\ (stmts = []
        \/ exists argslist template,
             stmts = [ExecuteValues (insert_query tablename) argslist
                        template 1000]).
Proof.
  unfold store_rows. destruct (_ || _).
  - exists []. split; [by rewrite app_nil_r|by left].
  - destruct rows as [|row rows'].
    + exists []. split; [by rewrite app_nil_r|by left].
    + unfold mbind, db_bind, lift, execute_values.
      cbn -[insert_template insert_query].
      eexists [_]. split; [|right; eauto].
      by destruct (server _ _ _ _ _).
Qed.
End store_rows_more.

Section driver_more.
Context {K : Type} `{Countable K} {A : Type} `{!Aggregatable K A}.
Context {P Obj : Type}.
Variable TwitchGamesAPIResponse : Doc P -> result A.
Variable from_vcs : gmap K Z -> Z -> result (list Obj).
Variable api_responses_to_games : list A -> result (list Obj).
Variable to_row : Obj -> Row.
Variable server : string -> list Row -> string -> Z -> Tables -> result Tables.
Variable top_games : string.
Local Abbreviation hour_body :=
  (aggregate_hour TwitchGamesAPIResponse from_vcs api_responses_to_games
     to_row server top_games).

(** X11.  An hour without snapshots is no error and sends nothing: the pass
    leaves the connection as it was.  [TwitchGameVC.from_vcs] is still
    called, with the empty mapping, and the pass raises when it does. *)
Theorem aggregate_hour_empty (mongo : MongoManager P)
  (curhrstart curhrend : Z) (man : PostgresManager) :
  docsbetween mongo curhrstart curhrend top_games = [] ->
  hour_body mongo curhrstart curhrend man
  = (man, match from_vcs ∅ curhrstart with
          | Ok _ => Ok ()
          | Raise ex => Raise ex
          end).
Proof.
  intros Hnone. unfold aggregate_hour. cbv zeta. rewrite Hnone.
  unfold mbind, db_bind, lift. cbn.
  by destruct (from_vcs ∅ curhrstart).
Qed.

(** X12.  A pass sends at most two statements, both inserts: rows of [game]
    first, rows of [twitch_game_vc] second.  It never writes to another
    table and never commits. *)
Theorem aggregate_hour_statements (mongo : MongoManager P)
  (curhrstart curhrend : Z) (man : PostgresManager) :
  exists stmts,
    sent (hour_body mongo curhrstart curhrend man).1 = sent man ++ stmts
    /\ exists games vcs,
         (games = []
          \/ exists argslist template,
               games = [ExecuteValues (insert_query "game") argslist
                          template 1000])
         /\ (vcs = []
             \/ exists argslist template,
                  vcs = [ExecuteValues (insert_query "twitch_game_vc")
                           argslist template 1000])
         /\ stmts = games ++ vcs.
Proof.
  assert (Hnothing : forall m : PostgresManager, exists stmts,
            sent m = sent m ++ stmts
            /\ exists games vcs,
                 (games = []
                  \/ exists argslist template,
                       games = [ExecuteValues (insert_query "game") argslist
                                  template 1000])
                 /\ (vcs = []
                     \/ exists argslist template,
                          vcs = [ExecuteValues (insert_query "twitch_game_vc")
                                   argslist template 1000])
                 /\ stmts = games ++ vcs).
  { intros m. exists []. split; [by rewrite app_nil_r|].
    exists [], []. split_and!; auto. }
  unfold aggregate_hour. cbv zeta. unfold mbind, db_bind, lift.
  destruct (comprehension _ _) as [apiresp|ex]; [|apply Hnothing].
  destruct (average_viewers apiresp curhrstart curhrend) as [sorted [vcs|ex]];
    [|apply Hnothing].
  destruct (from_vcs vcs curhrstart) as [rows|ex]; [|apply Hnothing].
  destruct (py_not sorted); [apply Hnothing|].
  destruct (api_responses_to_games sorted) as [games|ex]; [|apply Hnothing].
  destruct (store_rows_sent to_row server games "game" man)
    as (stmts1 & Hsent1 & Hshape1).
  destruct (store_rows to_row server games "game" false man)
    as [man1 [b1|ex]]; simpl in Hsent1.
  - destruct (store_rows_sent to_row server rows "twitch_game_vc" man1)
      as (stmts2 & Hsent2 & Hshape2).
    destruct (store_rows to_row server rows "twitch_game_vc" false man1)
      as [man2 [b2|ex]]; simpl in Hsent2 |- *;
      exists (stmts1 ++ stmts2);
      (split; [by rewrite Hsent2, Hsent1, app_assoc|]);
      exists stmts1, stmts2; by split_and!.
  - simpl. exists stmts1. split; [done|].
    exists stmts1, []. split_and!; auto. by rewrite app_nil_r.
Qed.
End driver_more.

Lemma store_rows_commit_after_insert_witness :
  store_rows id example_server [] "game" true example_man
  = (example_man, Ok false)
  /\ (store_rows id example_server [[VText "game1"]] "game" true
        example_man).2
     = Ok true.
Proof.
  destruct (store_rows_commit_after_insert id example_server [] "game"
              example_man) as [Hguard _].
  destruct (store_rows_commit_after_insert id example_server
              [[VText "game1"]] "game" example_man) as [_ Hinsert].
  split.
  - apply Hguard. by left.
  - cbv zeta in Hinsert. rewrite Hinsert; [reflexivity|discriminate|].
    apply (bool_decide_unpack _). vm_compute. exact I.
Defined.

Lemma aggregate_hour_empty_witness :
  aggregate_hour example_response example_from_vcs example_games id
    example_server "top_games" example_mongo 10800 14400 example_man
  = (example_man, Ok ()).
Proof.
  apply (aggregate_hour_empty example_response example_from_vcs
           example_games id example_server "top_games" example_mongo
           10800 14400 example_man).
  reflexivity.
Defined.

(** ** The scrape loop as a whole *)

Lemma try_run_events (p : pass) (Pev : event -> Prop) :
  (forall msg t, Pev (LogDebug msg t)) ->
  (forall msg, Pev (LogWarning msg)) ->
  Forall Pev (try_run p).1.
Proof.
  intros Hdebug Hwarn. unfold try_run.
  destruct (run p) as [[]|[]]; simpl; repeat constructor; auto.
Qed.

Lemma scrape_pass_sleeps (update_interval : Q) (p : pass) :
  Forall sleep_positive (scrape_pass update_interval p).1
  /\ ((start_time p <= time_before_sleep p)%Q ->
      Forall (sleep_within update_interval) (scrape_pass update_interval p).1).
Proof.
  unfold scrape_pass.
  pose proof (try_run_events p sleep_positive
                ltac:(done) ltac:(done)) as Hpos.
  pose proof (try_run_events p (sleep_within update_interval)
                ltac:(done) ltac:(done)) as Hwithin.
  destruct (try_run p) as [events [[]|ex]]; simpl in *; [|by split].
  destruct (Qlt_le_dec _ _) as [Hlt|Hle]; simpl; [|by split].
  split.
  - apply Forall_app. split; [done|]. by repeat constructor.
  - intros Hclock. apply Forall_app. split; [done|].
    repeat constructor; [done|]. simpl. lra.
Qed.

(** X13.  The loop never asks for a sleep of zero or negative length: every
    sleep it performs is positive.  When the clock does not go backwards
    within a pass, no sleep is longer than the update interval. *)
Theorem scrape_sleeps_positive_and_bounded (update_interval : Q)
  (passes : list pass) :
  Forall sleep_positive (scrape update_interval passes).1
  /\ (Forall (fun p => (start_time p <= time_before_sleep p)%Q) passes ->
      Forall (sleep_within update_interval) (scrape update_interval passes).1).
Proof.
  induction passes as [|p passes [IHpos IHwithin]]; [by split|].
  cbn [scrape].
  destruct (scrape_pass_sleeps update_interval p) as [Hpos Hwithin].
  destruct (scrape_pass update_interval p) as [events [[]|ex]]; simpl in *.
  - destruct (scrape update_interval passes) as [events' out]; simpl in *.
    split.
    + apply Forall_app. by split.
    + intros Hclock. apply Forall_cons in Hclock as [Hp Hclock].
      apply Forall_app. split; auto.
  - split; [done|]. intros Hclock.
    apply Forall_cons in Hclock as [Hp Hclock]. auto.
Qed.

(** X14.  Passes compose: the loop over [passes1 ++ passes2] does what it
    does over [passes1] and, unless an exception has left the loop by then,
    goes on with what it does over [passes2].  After an exception that was
    not caught no later pass runs. *)
Theorem scrape_app (update_interval : Q) (passes1 passes2 : list pass) :
  scrape update_interval (passes1 ++ passes2)
  = match (scrape update_interval passes1).2 with
    | Some ex => scrape update_interval passes1
    | None =>
        ((scrape update_interval passes1).1
           ++ (scrape update_interval passes2).1,
         (scrape update_interval passes2).2)
    end.
Proof.
  induction passes1 as [|p passes1 IH]; simpl.
  - by destruct (scrape update_interval passes2).
  - destruct (scrape_pass update_interval p) as [events [[]|ex]]; [|done].
    rewrite IH.
    destruct (scrape update_interval passes1) as [events1 [ex|]]; simpl.
    + done.
    + by rewrite app_assoc.
Qed.

Lemma scrape_sleeps_positive_and_bounded_witness :
  Forall (sleep_within (60 # 1))
    (scrape (60 # 1) [pass_ok; pass_disconnected; pass_slow]).1.
Proof.
  apply (scrape_sleeps_positive_and_bounded (60 # 1)
           [pass_ok; pass_disconnected; pass_slow]).
  repeat (apply Forall_cons; split; [vm_compute; discriminate|]).
  apply Forall_nil_2.
Defined.

(** ** The broadcasts driver *)
Section broadcasts_facts.
Context {K : Type} `{Countable K} {A : Type} `{!Aggregatable K A}.
Context {P Obj : Type}.
Variable TwitchStreamsAPIResponse : Doc P -> result A.
Variable from_api_resp : list A -> result (list Obj).
Variable stream_from_vcs : list A -> gmap K Z -> Z -> db (list Obj).
Variable to_row : Obj -> Row.
Variable server : string -> list Row -> string -> Z -> Tables -> result Tables.
Variable top_streams : string.
Local Abbreviation broadcast_hour :=
  (aggregate_broadcast_hour TwitchStreamsAPIResponse from_api_resp
     stream_from_vcs to_row server top_streams).
Local Abbreviation broadcasts :=
  (agg_twitch_broadcasts TwitchStreamsAPIResponse from_api_resp
     stream_from_vcs to_row server top_streams).

Lemma while_hours_unroll (body : Z -> Z -> db unit) hrstart hrend last man :
  while_hours body hrstart hrend last man
  = run_windows body (hour_buckets hrstart hrend last) man.
Proof.
  funelim (while_hours body hrstart hrend last man).
  - rewrite hour_buckets_done by lia. done.
  - rewrite hour_buckets_step by done. cbn [run_windows].
    unfold mbind, db_bind.
    match goal with Hb : body _ _ _ = _ |- _ => rewrite Hb end.
    match goal with
    | IH : while_hours _ _ _ _ _ = run_windows _ _ _ |- _ => exact IH
    end.
  - rewrite hour_buckets_step by done. cbn [run_windows].
    unfold mbind, db_bind.
    match goal with Hb : body _ _ _ = _ |- _ => by rewrite Hb end.
Qed.

Lemma commit_free_run_windows (body : Z -> Z -> db unit) windows :
  (forall hrstart hrend, commit_free server (body hrstart hrend)) ->
  commit_free server (run_windows body windows).
Proof.
  intros Hbody. induction windows as [|[s e] windows IH]; simpl.
  - auto with commit_free.
  - by apply commit_free_bind.
Qed.

Lemma commit_free_while_hours (body : Z -> Z -> db unit) hrstart hrend last :
  (forall hrstart hrend, commit_free server (body hrstart hrend)) ->
  commit_free server (while_hours body hrstart hrend last).
Proof.
  intros Hbody man. rewrite while_hours_unroll.
  by apply commit_free_run_windows.
Qed.

Lemma commit_free_broadcast_hour (mongo : MongoManager P) hrstart hrend :
  (forall apiresp vcs epoch,
      commit_free server (stream_from_vcs apiresp vcs epoch)) ->
  commit_free server (broadcast_hour mongo hrstart hrend).
Proof.
  intros Hstreams. unfold aggregate_broadcast_hour. cbv zeta.
  apply commit_free_bind; [auto with commit_free|]. intros apiresp.
  destruct (py_not apiresp); [auto with commit_free|].
  destruct (average_viewers apiresp hrstart hrend) as [sorted vcs].
  apply commit_free_bind; [auto with commit_free|]. intros vcs'.
  apply commit_free_bind; [auto with commit_free|]. intros channels.
  apply commit_free_bind; [auto with commit_free|]. intros _.
  apply commit_free_bind; [apply Hstreams|]. intros streams.
  apply commit_free_bind; [auto with commit_free|]. intros _.
  auto with commit_free.
Qed.

(** X16.  [agg_twitch_broadcasts] walks the same windows as the games
    driver, those ending strictly before the current hour, and batches its
    commit the same way, as long as [TwitchStream.from_vcs], which is handed
    the manager, does not commit: a run that returns has sent its statements
    followed by one commit and the committed tables are what the statements
    made of the tables; a run that raises has committed nothing. *)
Theorem agg_twitch_broadcasts_commits_once_at_end (now : Q)
  (mongo : MongoManager P) (man : PostgresManager) :
  (forall apiresp vcs epoch,
      commit_free server (stream_from_vcs apiresp vcs epoch)) ->
  broadcasts now mongo man
  = ('(hrstart, hrend, last) ← _agg_ts now mongo "twitch_stream" top_streams;
     _ ← run_windows (broadcast_hour mongo) (hour_buckets hrstart hrend last);
     commit) man
  /\ exists stmts,
      (Commit ∉ stmts)
      /\ match (broadcasts now mongo man).2 with
         | Ok _ =>
             sent (broadcasts now mongo man).1 = sent man ++ stmts ++ [Commit]
             /\ replay server stmts (session man)
                = Ok (committed (broadcasts now mongo man).1)
         | Raise _ =>
             sent (broadcasts now mongo man).1 = sent man ++ stmts
             /\ committed (broadcasts now mongo man).1 = committed man
         end.
Proof.
  intros Hstreams. split.
  - unfold agg_twitch_broadcasts, mbind, db_bind.
    destruct (_agg_ts _ _ _ _ _) as [man1 [[[s e] last]|ex]]; [|done].
    by rewrite while_hours_unroll.
  - unfold agg_twitch_broadcasts, mbind, db_bind.
    destruct (commit_free_agg_ts server now mongo "twitch_stream" top_streams
                man) as (stmts1 & Hsent1 & Hno1 & Hc1 & Hr1).
    destruct (_agg_ts _ _ _ _ _) as [man1 [[[s e] last]|ex]]; simpl in *.
    + destruct (commit_free_while_hours (broadcast_hour mongo) s e last
                  (fun s' e' => commit_free_broadcast_hour mongo s' e'
                                  Hstreams) man1)
        as (stmts2 & Hsent2 & Hno2 & Hc2 & Hr2).
      destruct (while_hours _ _ _ _ _) as [man2 [[]|ex]];
        simpl in *; exists (stmts1 ++ stmts2).
      * split; [by apply not_elem_of_app|]. split.
        -- by rewrite Hsent2, Hsent1, !app_assoc.
        -- rewrite replay_app, (Hr1 (s, e, last) eq_refl). simpl.
           by apply (Hr2 ()).
      * split; [by apply not_elem_of_app|]. split.
        -- by rewrite Hsent2, Hsent1, !app_assoc.
        -- by rewrite Hc2.
    + exists stmts1. by split_and!.
Qed.

(** In the broadcasts driver an hour without snapshots calls nothing
    of models.py and sends nothing: the pass returns with the connection as
    it was, whatever the collaborators would do. *)
Theorem aggregate_broadcast_hour_empty (mongo : MongoManager P)
  (hrstart hrend : Z) (man : PostgresManager) :
  docsbetween mongo hrstart hrend top_streams = [] ->
  broadcast_hour mongo hrstart hrend man = (man, Ok ()).
Proof.
  intros Hnone. unfold aggregate_broadcast_hour. cbv zeta. by rewrite Hnone.
Qed.
End broadcasts_facts.

Lemma agg_twitch_broadcasts_commits_once_at_end_witness :
  exists stmts,
    (Commit ∉ stmts)
    /\ match (example_broadcasts (10800 # 1)).2 with
       | Ok _ =>
           sent (example_broadcasts (10800 # 1)).1 = [] ++ stmts ++ [Commit]
           /\ replay example_server stmts (<["twitch_stream" := []]> ∅)
              = Ok (committed (example_broadcasts (10800 # 1)).1)
       | Raise _ =>
           sent (example_broadcasts (10800 # 1)).1 = [] ++ stmts
           /\ committed (example_broadcasts (10800 # 1)).1
              = <["twitch_stream" := []]> ∅
       end.
Proof.
  apply (agg_twitch_broadcasts_commits_once_at_end example_response
           example_games example_stream_rows id example_server "top_games"
           (10800 # 1) example_mongo).
  intros apiresp vcs epoch man. exists []. simpl. rewrite app_nil_r.
  split_and!; try reflexivity. apply not_elem_of_nil.
Defined.

Lemma aggregate_broadcast_hour_empty_witness :
  aggregate_broadcast_hour example_response example_games
    example_stream_rows id example_server "top_games" example_mongo
    10800 14400 example_man
  = (example_man, Ok ()).
Proof.
  apply (aggregate_broadcast_hour_empty example_response example_games
           example_stream_rows id example_server "top_games" example_mongo
           10800 14400 example_man).
  reflexivity.
Defined.

(** The broadcasts driver on the small store at 03:00:00. *)
Example example_broadcasts_three_hours :
  sent (example_broadcasts (10800 # 1)).1
  = [ExecuteValues
       "INSERT INTO twitch_channel VALUES %s ON CONFLICT DO NOTHING "
       [[VText "game1"]] "(%s)" 1000;
     ExecuteValues
       "INSERT INTO twitch_stream VALUES %s ON CONFLICT DO NOTHING "
       [[VText "game1"; VInt 3600; VInt 222]] "(%s,%s,%s)" 1000;
     Commit]
  /\ (example_broadcasts (10800 # 1)).2 = Ok ().
Proof. vm_compute. split; reflexivity. Qed.

(** ** [game_name_to_id] and its cache *)
Section game_name_facts.
Variable lower : string -> string.
Local Abbreviation resolve := (game_name_to_id lower).

Lemma known_spelling_idem (games : list string) (name : string) :
  known_spelling lower games (known_spelling lower games name)
  = known_spelling lower games name.
Proof.
  assert (Hknown : forall game, game ∈ games ->
                                 known_spelling lower games game = game).
  { intros game Hgame. unfold known_spelling.
    by rewrite bool_decide_eq_true_2. }
  destruct (decide (name ∈ games)) as [Hin|Hin].
  - by rewrite !(Hknown name Hin).
  - destruct (list_find (fun game => lower name = lower game) games)
      as [[i game]|] eqn:Hfind.
    + assert (known_spelling lower games name = game) as Hname.
      { unfold known_spelling.
        by rewrite bool_decide_eq_false_2, Hfind by done. }
      rewrite Hname. apply Hknown.
      apply list_find_Some in Hfind as (Hi & _ & _).
      by eapply list_elem_of_lookup_2.
    + assert (known_spelling lower games name = name) as Hname.
      { unfold known_spelling.
        by rewrite bool_decide_eq_false_2, Hfind by done. }
      by rewrite !Hname.
Qed.

(** X17.  An id that was resolved once is served from the cache from then
    on: the same name gives the same id without asking the database,
    whatever the [game] table holds by then, and the cache stays as it is.
    The cache is keyed by the known spelling, so this also holds for the
    name as the configuration spells it. *)
Theorem game_name_to_id_cached (name : string) (self self' : GameNames)
  (man : PostgresManager) (id : value) :
  resolve name self man = (self', Ok id) ->
  forall man',
    resolve name self' man' = (self', Ok id)
    /\ resolve (known_spelling lower (esports_games self) name) self' man'
       = (self', Ok id).
Proof.
  unfold game_name_to_id. cbv zeta. intros Hfirst man'.
  assert (esports_games self' = esports_games self
          /\ gamename_cache self'
               !! known_spelling lower (esports_games self) name = Some id)
    as [Hgames Hcached].
  { destruct (gamename_cache self !! _) as [id0|] eqn:Hc.
    - by injection Hfirst as <- <-.
    - destruct (_ ≫= first_column) as [id0|ex]; [|done].
      injection Hfirst as <- <-. simpl. by rewrite lookup_insert_eq. }
  rewrite Hgames, known_spelling_idem, Hcached. done.
Qed.

(** X18.  A name that is not a known game but differs from exactly one
    known game by case only is resolved as that game: same answer, same
    cache entry. *)
Theorem game_name_to_id_ignores_case (name game : string) (self : GameNames)
  (man : PostgresManager) :
  name ∉ esports_games self ->
  game ∈ esports_games self ->
  lower name = lower game ->
  (forall g, g ∈ esports_games self -> lower name = lower g -> g = game) ->
  resolve name self man = resolve game self man.
Proof.
  intros Hname Hgame Hlower Honly. unfold game_name_to_id. cbv zeta.
  assert (known_spelling lower (esports_games self) name = game) as ->.
  { unfold known_spelling. rewrite bool_decide_eq_false_2 by done.
    destruct (list_find _ _) as [[i g]|] eqn:Hfind.
    - apply list_find_Some in Hfind as (Hi & Hg & _).
      apply Honly; [by eapply list_elem_of_lookup_2|done].
    - apply list_find_None in Hfind. rewrite Forall_forall in Hfind.
      by destruct (Hfind game Hgame). }
  assert (known_spelling lower (esports_games self) game = game) as ->.
  { unfold known_spelling. by rewrite bool_decide_eq_true_2. }
  done.
Qed.

(** X19.  A lookup never drops or changes a cached id: the cache afterwards
    holds what it held, plus at most the id of the name looked up.  When
    the lookup raises, as it does with a [TypeError] for a name that is
    neither cached nor in the [game] table, the cache is left as it was. *)
Theorem game_name_to_id_cache_grows (name : string) (self : GameNames)
  (man : PostgresManager) :
  gamename_cache self ⊆ gamename_cache (resolve name self man).1
  /\ (forall ex, (resolve name self man).2 = Raise ex ->
        (resolve name self man).1 = self)
  /\ (forall rows,
        gamename_cache self
          !! known_spelling lower (esports_games self) name = None ->
        session man !! "game" = Some rows ->
        Forall (fun r : Row =>
                  r !! 1%nat
                  <> Some (VText (known_spelling lower (esports_games self)
                                    name))) rows ->
        resolve name self man = (self, Raise (OtherError "TypeError"))).
Proof.
  unfold game_name_to_id. cbv zeta. split_and!.
  - destruct (gamename_cache self !! _) as [id0|] eqn:Hc; [done|].
    destruct (_ ≫= first_column) as [id0|ex]; [|done].
    simpl. by apply insert_subseteq.
  - intros ex. destruct (gamename_cache self !! _) as [id0|]; [done|].
    by destruct (_ ≫= first_column) as [id0|ex'].
  - intros rows Hc Hrows Hnone. rewrite Hc. unfold fetch_game_id.
    rewrite Hrows.
    destruct (list_find _ rows) as [[i r]|] eqn:Hfind; [|done].
    apply list_find_Some in Hfind as (Hi & Hr & _).
    rewrite Forall_forall in Hnone.
    destruct (Hnone r); [by eapply list_elem_of_lookup_2|done].
Qed.
End game_name_facts.

Lemma game_name_to_id_cached_witness :
  game_name_to_id example_lower "DOTA 2"
    (game_name_to_id example_lower "DOTA 2" example_names game_man).1
    example_man
  = ((game_name_to_id example_lower "DOTA 2" example_names game_man).1,
     Ok (VInt 29595)).
Proof.
  apply (game_name_to_id_cached example_lower "DOTA 2" example_names _
           game_man (VInt 29595)).
  reflexivity.
Defined.

Lemma game_name_to_id_ignores_case_witness :
  game_name_to_id example_lower "DOTA 2" example_names game_man
  = game_name_to_id example_lower "Dota 2" example_names game_man.
Proof.
  apply (game_name_to_id_ignores_case example_lower "DOTA 2" "Dota 2").
  - apply (bool_decide_unpack _). vm_compute. exact I.
  - apply (bool_decide_unpack _). vm_compute. exact I.
  - reflexivity.
  - intros g Hg Hlow.
    apply elem_of_cons in Hg as [->|Hg]; [reflexivity|].
    apply elem_of_cons in Hg as [->|Hg].
    + vm_compute in Hlow. discriminate.
    + by apply elem_of_nil in Hg.
Defined.

Lemma game_name_to_id_cache_grows_witness :
  game_name_to_id example_lower "Smite" example_names game_man
  = (example_names, Raise (OtherError "TypeError")).
Proof.
  destruct (game_name_to_id_cache_grows example_lower "Smite" example_names
              game_man) as (_ & _ & Hmissing).
  eapply Hmissing.
  - reflexivity.
  - reflexivity.
  - repeat (apply Forall_cons; split; [vm_compute; discriminate|]).
    apply Forall_nil_2.
Defined.

(** ** mongomodels.py: what [viewercounts] reports *)

(** A dict comprehension reports, for each key, the value of the last
    element with that key. *)
Lemma foldl_insert_last {X : Type} (key : X -> string) (val : X -> Z)
  (xs : list X) (m0 : gmap string Z) (k : string) :
  foldl (fun m x => <[key x := val x]> m) m0 xs !! k
  = match last (filter (fun x => key x = k) xs) with
    | Some x => Some (val x)
    | None => m0 !! k
    end.
Proof.
  revert m0. induction xs as [|x xs IH]; intros m0; [done|].
  cbn [foldl]. rewrite IH, filter_cons.
  destruct (decide (key x = k)) as [Hk|Hk].
  - rewrite last_cons.
    destruct (last (filter _ xs)); [done|].
    by rewrite <- Hk, lookup_insert_eq.
  - destruct (last (filter _ xs)); [done|].
    by rewrite lookup_insert_ne.
Qed.

Lemma dict_comprehension_last {X : Type} (key : X -> string) (val : X -> Z)
  (xs : list X) (k : string) :
  dict_comprehension key val xs !! k
  = val <$> last (filter (fun x => key x = k) xs).
Proof.
  unfold dict_comprehension. rewrite foldl_insert_last, lookup_empty.
  by destruct (last _).
Qed.

(** X20.  [YTLivestreams.viewercounts] reports each video once: a video id
    that occurs in several streams of the snapshot is reported with the
    viewers of the last of them, and an id is reported exactly when some
    stream has it. *)
Theorem yt_viewercounts_last_wins (self : YTLivestreams) (vidid : string) :
  viewercounts self !! vidid
  = yt_viewers <$> last (filter (fun s => yt_vidid s = vidid)
                                (yt_streams self))
  /\ (is_Some (viewercounts self !! vidid)
      <-> exists s, s ∈ yt_streams self /\ yt_vidid s = vidid).
Proof.
  assert (Hlook : viewercounts self !! vidid
                  = yt_viewers <$> last (filter (fun s => yt_vidid s = vidid)
                                                (yt_streams self)))
    by apply dict_comprehension_last.
  split; [done|]. rewrite Hlook, fmap_is_Some. split.
  - intros [s Hs]. apply last_Some in Hs as [l Hl].
    assert (s ∈ filter (fun s => yt_vidid s = vidid) (yt_streams self))
      as Hin by (rewrite Hl; apply elem_of_app; right; left).
    apply list_elem_of_filter in Hin as [? ?]. eauto.
  - intros (s & Hs & Hv).
    assert (s ∈ filter (fun s => yt_vidid s = vidid) (yt_streams self))
      as Hin by (by apply list_elem_of_filter).
    destruct (last (filter _ _)) eqn:Hlast; [eauto|].
    apply last_None in Hlast. rewrite Hlast in Hin.
    by apply elem_of_nil in Hin.
Qed.

Section fromapiresponse_facts.
Variable int_of_str : string -> result Z.
Local Abbreviation keep := (keep_stream int_of_str).

Lemma dict_set_keys {V : Type} (k : string) (v : V) (d : list (string * V)) :
  NoDup d.*1 ->
  NoDup (dict_set k v d).*1
  /\ (list_to_map (dict_set k v d) : gmap string V)
     = <[k := v]> (list_to_map d).
Proof.
  induction d as [|[k' v'] d IH]; intros Hnd.
  - split; [|done]. simpl. apply NoDup_singleton.
  - simpl in Hnd. apply NoDup_cons in Hnd as [Hk' Hnd].
    destruct (IH Hnd) as [IHnd IHmap]. simpl.
    destruct (decide (k' = k)) as [->|Hne]; simpl.
    + split; [by apply NoDup_cons|]. by rewrite insert_insert_eq.
    + split.
      * apply NoDup_cons. split; [|done]. intros Hin.
        apply list_elem_of_fmap in Hin as ([k1 v1] & -> & Hin).
        apply (elem_of_list_to_map_1 (M := gmap string)) in Hin; [|done].
        rewrite IHmap, lookup_insert_ne in Hin by done.
        apply elem_of_list_to_map_2 in Hin.
        apply Hk', list_elem_of_fmap. by exists (k1, v1).
      * rewrite IHmap. by apply insert_insert_ne.
Qed.

Lemma dict_set_keyed k v d :
  snap_broadcaster_id v = k -> keyed d -> keyed (dict_set k v d).
Proof.
  intros Hv. unfold keyed. induction 1 as [|[k' v'] d Hkv Hd IH]; simpl.
  - by repeat constructor.
  - destruct (decide (k' = k)); constructor; auto.
Qed.

(** The counts of a dict of snapshots that are filed under their
    broadcaster. *)
Lemma keyed_viewercounts (d : list (string * TwitchStreamSnapshot))
  (m0 : gmap string Z) :
  NoDup d.*1 -> keyed d ->
  foldl (fun m s => <[snap_broadcaster_id s := snap_viewers s]> m) m0 d.*2
  = (snap_viewers <$> (list_to_map d : gmap string TwitchStreamSnapshot))
      ∪ m0.
Proof.
  revert m0. induction d as [|[k v] d IH]; intros m0 Hnd Hkeyed.
  - simpl. by rewrite fmap_empty, (left_id_L ∅ (∪)).
  - simpl in Hnd. apply NoDup_cons in Hnd as [Hk Hnd].
    apply Forall_cons in Hkeyed as [Hv Hkeyed]. simpl in Hv |- *.
    rewrite IH by done. rewrite Hv, fmap_insert.
    apply map_eq. intros k'. rewrite !lookup_union.
    destruct (decide (k = k')) as [->|Hne].
    + rewrite !lookup_insert_eq, lookup_fmap.
      rewrite (not_elem_of_list_to_map_1 _ _ Hk).
      by destruct (m0 !! k').
    + by rewrite !lookup_insert_ne.
Qed.

Lemma keep_stream_low (minviewers : Z) (r : RawStream) d g :
  raw_viewer_count r < minviewers -> keep minviewers r (d, g) = Ok (d, g).
Proof. intros Hlow. unfold keep_stream. by rewrite decide_True. Qed.

Lemma keep_stream_kept (minviewers : Z) (r : RawStream) d g :
  minviewers <= raw_viewer_count r ->
  keep minviewers r (d, g)
  = (gid ← int_of_str (raw_game_id r);
     Ok (dict_set (raw_user_id r)
           {| snap_viewers := raw_viewer_count r;
              snap_game_id := gid;
              snap_language := raw_language r;
              snap_type := raw_type r;
              snap_title := raw_title r;
              snap_stream_id := raw_id r;
              snap_broadcaster_id := raw_user_id r |} d, Some gid)).
Proof. intros Hkeep. unfold keep_stream. by rewrite decide_False by lia. Qed.

Lemma for_each_keep (minviewers : Z) (rawstreams : list RawStream) d g d' g' :
  NoDup d.*1 -> keyed d ->
  for_each (keep minviewers) rawstreams (d, g) = Ok (d', g') ->
  NoDup d'.*1 /\ keyed d'
  /\ snap_viewers <$> (list_to_map d' : gmap string TwitchStreamSnapshot)
     = foldl (fun m r => <[raw_user_id r := raw_viewer_count r]> m)
         (snap_viewers <$> (list_to_map d : gmap string TwitchStreamSnapshot))
         (filter (fun r => minviewers <= raw_viewer_count r) rawstreams).
Proof.
  revert d g. induction rawstreams as [|r rs IH]; intros d g Hnd Hkeyed.
  - by intros [= <- <-].
  - cbn [for_each]. rewrite filter_cons.
    destruct (decide (raw_viewer_count r < minviewers)) as [Hlow|Hkeep].
    + rewrite keep_stream_low by done.
      rewrite decide_False by lia. cbn. by apply IH.
    + rewrite keep_stream_kept by lia. rewrite decide_True by lia.
      destruct (int_of_str (raw_game_id r)) as [gid|ex]; [|done]. cbn.
      intros Hrun.
      destruct (dict_set_keys (raw_user_id r)
                  {| snap_viewers := raw_viewer_count r;
                     snap_game_id := gid;
                     snap_language := raw_language r;
                     snap_type := raw_type r;
                     snap_title := raw_title r;
                     snap_stream_id := raw_id r;
                     snap_broadcaster_id := raw_user_id r |} d Hnd)
        as [Hnd1 Hmap1].
      apply IH in Hrun as (Hnd' & Hkeyed' & Hcounts);
        [|done|by apply dict_set_keyed].
      split_and!; [done..|].
      by rewrite Hcounts, Hmap1, fmap_insert.
Qed.

(** X21.  Of the streams handed to [fromapiresponse], only those with at
    least [minviewers] viewers are kept: the response reports, for each
    broadcaster, the viewer count of the last kept stream of that
    broadcaster, so never a count below [minviewers]; its timestamp is the
    clock reading cut to whole seconds. *)
Theorem fromapiresponse_keeps_min_viewers (now : Q)
  (rawstreams : list RawStream) (minviewers : Z)
  (resp : TwitchStreamsAPIResponse) :
  fromapiresponse int_of_str now rawstreams minviewers = Ok resp ->
  (forall k,
      viewercounts resp !! k
      = raw_viewer_count
          <$> last (filter (fun r => raw_user_id r = k)
                      (filter (fun r => minviewers <= raw_viewer_count r)
                              rawstreams)))
  /\ (forall k v, viewercounts resp !! k = Some v -> minviewers <= v)
  /\ timestamp resp = py_int now.
Proof.
  unfold fromapiresponse. cbv zeta.
  destruct (for_each _ _ _) as [[d g]|ex] eqn:Hrun; [|done].
  intros [= <-]. cbn.
  apply for_each_keep in Hrun as (Hnd & Hkeyed & Hcounts);
    [|apply NoDup_nil_2|apply Forall_nil_2].
  assert (Hlook : forall k,
    dict_comprehension snap_broadcaster_id snap_viewers d.*2 !! k
    = raw_viewer_count
        <$> last (filter (fun r => raw_user_id r = k)
                    (filter (fun r => minviewers <= raw_viewer_count r)
                            rawstreams))).
  { intros k. unfold dict_comprehension.
    rewrite keyed_viewercounts by done.
    rewrite (right_id_L ∅ (∪)), Hcounts. simpl. rewrite fmap_empty.
    rewrite foldl_insert_last, lookup_empty. by destruct (last _). }
  split_and!; [done| |done].
  intros k v. rewrite Hlook. intros Hv.
  apply fmap_Some in Hv as (r & Hlast & ->).
  apply last_Some in Hlast as [l Hl].
  assert (r ∈ filter (fun r => raw_user_id r = k)
                (filter (fun r => minviewers <= raw_viewer_count r)
                        rawstreams)) as Hin
    by (rewrite Hl; apply elem_of_app; right; left).
  apply list_elem_of_filter in Hin as [_ Hin].
  by apply list_elem_of_filter in Hin as [? _].
Qed.

(** X22.  [fromapiresponse] reads the game id of a stream only after the
    viewer threshold: it returns exactly when the game id of every stream
    with at least [minviewers] viewers is an integer, whatever the game ids
    of the other streams are. *)
Theorem fromapiresponse_reads_kept_game_ids (now : Q)
  (rawstreams : list RawStream) (minviewers : Z) :
  (exists resp, fromapiresponse int_of_str now rawstreams minviewers = Ok resp)
  <-> Forall (fun r => exists gid, int_of_str (raw_game_id r) = Ok gid)
        (filter (fun r => minviewers <= raw_viewer_count r) rawstreams).
Proof.
  unfold fromapiresponse. cbv zeta.
  assert (Hloop : forall st,
    (exists st', for_each (keep minviewers) rawstreams st = Ok st')
    <-> Forall (fun r => exists gid, int_of_str (raw_game_id r) = Ok gid)
          (filter (fun r => minviewers <= raw_viewer_count r) rawstreams)).
  { induction rawstreams as [|r rs IH]; intros [d g].
    - split; [constructor|eauto].
    - cbn [for_each]. rewrite filter_cons.
      destruct (decide (raw_viewer_count r < minviewers)) as [Hlow|Hkeep].
      + rewrite keep_stream_low by done.
        rewrite decide_False by lia. cbn. apply IH.
      + rewrite keep_stream_kept by lia.
        rewrite decide_True by lia. rewrite Forall_cons.
        destruct (int_of_str (raw_game_id r)) as [gid|ex]; cbn.
        * rewrite IH. split; [eauto|]. by intros [_ ?].
        * split; [by intros [? ?]|]. by intros [[? ?] _]. }
  rewrite <- (Hloop ([], None)). split.
  - intros [resp Hresp].
    destruct (for_each _ _ _) as [st|ex]; [eauto|done].
  - intros [st ->]. cbn. eauto.
Qed.
End fromapiresponse_facts.

Lemma yt_viewercounts_last_wins_witness :
  viewercounts
    {| yt_streams := [yt_stream "v1" 900; yt_stream "v2" 50;
                      yt_stream "v1" 1200];
       yt_timestamp := 1800 |} !! "v1"
  = Some 1200.
Proof.
  destruct (yt_viewercounts_last_wins
              {| yt_streams := [yt_stream "v1" 900; yt_stream "v2" 50;
                                yt_stream "v1" 1200];
                 yt_timestamp := 1800 |} "v1") as [Hlast _].
  rewrite Hlast. reflexivity.
Defined.

Lemma fromapiresponse_keeps_min_viewers_witness :
  exists resp,
    fromapiresponse example_int (1800 # 1) raw_streams 10 = Ok resp
    /\ viewercounts resp = {["u1" := 150]}
    /\ forall k v, viewercounts resp !! k = Some v -> 10 <= v.
Proof.
  eexists. split; [reflexivity|]. split; [reflexivity|].
  eapply (fromapiresponse_keeps_min_viewers example_int (1800 # 1)
            raw_streams 10).
  reflexivity.
Defined.

Lemma fromapiresponse_reads_kept_game_ids_witness :
  exists resp, fromapiresponse example_int (1800 # 1) raw_streams 10 = Ok resp.
Proof.
  apply (fromapiresponse_reads_kept_game_ids example_int (1800 # 1)
           raw_streams 10).
  repeat (apply Forall_cons; split; [by exists 29595|]).
  apply Forall_nil_2.
Defined.

(** ** [initdb] *)


Lemma elem_of_tablenames (t : string) :
  t ∈ tablenames <-> t ∈ table_order.
Proof.
  unfold tablenames, table_order.
  rewrite !elem_of_union, !elem_of_singleton, !elem_of_cons, elem_of_nil.
  tauto.
Qed.









Lemma forallb_tables (l : list string) (s : Tables) :
  forallb (fun t => bool_decide (is_Some (s !! t))) l = true
  <-> forall t, t ∈ l -> is_Some (s !! t).
Proof.
  induction l as [|t0 l IH]; simpl.
  - split; [|reflexivity]. intros _ t Ht. by apply elem_of_nil in Ht.
  - rewrite andb_true_iff, IH, bool_decide_eq_true. split.
    + intros [H0 Hl] t Ht. apply elem_of_cons in Ht as [->|Ht]; auto.
    + intros Hall. split; [apply Hall; left|].
      intros t Ht. apply Hall. by right.
Qed.

Lemma all_tables_exist_spec (man : PostgresManager) (log : list db_event) :
  all_tables_exist (man, log)
  = ((man, log),
     Ok (bool_decide (forall t, t ∈ tablenames -> is_Some (session man !! t)))).
Proof.
  unfold all_tables_exist. cbn [fst]. do 2 f_equal.
  pose proof (forallb_tables (elements tablenames) (session man)) as Hiff.
  assert (Hel : forall t, t ∈ elements tablenames <-> t ∈ tablenames)
    by (intros t; apply elem_of_elements).
  revert Hiff Hel. generalize (elements tablenames). intros l Hiff Hel.
  destruct (forallb _ l).
  - symmetry. apply bool_decide_eq_true_2. intros t Ht.
    apply (proj1 Hiff eq_refl t). apply (proj2 (Hel t)). exact Ht.
  - symmetry. apply bool_decide_eq_false_2. intros Hall.
    assert (false = true) as Hfalse; [|discriminate Hfalse].
    apply (proj2 Hiff). intros t Ht. apply Hall. apply (proj1 (Hel t)).
    exact Ht.
Qed.

(** X23.  [initdb] on a database that has all six tables changes nothing:
    it executes no statement, does not commit, and logs only that Postgres
    is ready. *)
Theorem initdb_complete_is_noop (man : PostgresManager)
  (log : list db_event) :
  (forall t, t ∈ tablenames -> is_Some (session man !! t)) ->
  initdb (man, log) = ((man, log ++ [Debug "Postgres ready."]), Ok ()).
Proof.
  intros Hall. unfold initdb, initdb_try, mbind, logged_bind.
  rewrite all_tables_exist_spec. by rewrite bool_decide_eq_true_2.
Qed.


Lemma initdb_complete_is_noop_witness :
  initdb ({| committed := foldl (fun tables t => ensure_table t tables) ∅
                            table_order;
             session := foldl (fun tables t => ensure_table t tables) ∅
                          table_order;
             sent := [] |}, [])
  = (({| committed := foldl (fun tables t => ensure_table t tables) ∅
                        table_order;
         session := foldl (fun tables t => ensure_table t tables) ∅
                      table_order;
         sent := [] |}, [] ++ [Debug "Postgres ready."]), Ok ()).
Proof.
  apply initdb_complete_is_noop. intros t Ht.
  apply elem_of_tablenames in Ht. unfold table_order in Ht.
  repeat (apply elem_of_cons in Ht as [->|Ht];
          [apply (bool_decide_unpack _); vm_compute; exact I|]).
  by apply elem_of_nil in Ht.
Defined.


Lemma epoch_to_hour_floor_witness :
  epoch_to_hour (16473 # 2) mod 3600 = 0
  /\ (inject_Z (epoch_to_hour (16473 # 2)) <= 16473 # 2)%Q
  /\ (16473 # 2 < inject_Z (epoch_to_hour (16473 # 2) + 3600))%Q.
Proof.
  apply (epoch_to_hour_floor (16473 # 2)). unfold Qle. simpl. lia.
Defined.
